(** * Kaomoji Replacer: the SillyTavern extension and the replacement core

    The extension ([packages/kaomoji-replacer-sillytavern/index.js]) is
    embedded from its source.  Every function of the file that reads or
    writes the chat, the module variables or the host is a computation of
    the monad [M] over the state [World]; an [async] function is run to
    its end, one call after the other.  Writes to a message object are
    writes to the chat, exceptions leave the state as it is at the throw,
    and the console output is left out.

    The core library the extension loads as a UMD bundle (dataset store,
    search engine, token scanner, replacement engine) is not among the
    sources.  The extension sees it through the interface
    [KaomojiReplacerLib]; module [Core] models it from the design
    document. *)

From Stdlib Require Import String Ascii List Arith ZArith QArith Qcanon Lia.
From stdpp Require Import base tactics option list gmap strings numbers sorting pretty.

Local Open Scope string_scope.
Local Open Scope list_scope.

(** ** Data model shared by the core and the extension *)

Module Model.

(** Modelled from the spec: the record [KaomojiEntry] of the dataset
    (section 3); the bundle that declares it is not among the sources. *)
Record KaomojiEntry := {
  keyword : string;
  kaomoji : string;
  aliases : list string;
  tags : list string
}.

(** Modelled from the spec: the kinds of a match (section 3). *)
Inductive MatchKind := exact | aliasMatch | fuzzy.

(** Modelled from the spec: [MatchCandidate] (section 3).  A candidate
    refers to an entry of the store: [entryRef] is the position of the
    entry in load order.  Scores are rational numbers. *)
Record MatchCandidate := {
  entryRef : nat;
  entry : KaomojiEntry;
  score : Qc;
  matchKind : MatchKind
}.

(** Modelled from the spec: [Token] (section 3), with the half-open span
    [startOffset, endOffset) of the token in the scanned text. *)
Record Token := {
  rawKeyword : string;
  startOffset : nat;
  endOffset : nat;
  originalText : string
}.

(** Modelled from the spec: the outcome of a token (section 3). *)
Inductive Outcome := replaced | notFoundKept | notFoundMarked | notFoundRemoved.

(** Modelled from the spec: [ReplacementRecord] (section 3). *)
Record ReplacementRecord := {
  recKeyword : string;
  outcome : Outcome;
  chosenKaomoji : option string
}.

(** Modelled from the spec: [ReplacementResult] (section 3); the
    extension reads its fields [text], [hasReplacements] and
    [successCount]. *)
Record ReplacementResult := {
  text : string;
  hasReplacements : bool;
  successCount : nat;
  failureCount : nat;
  records : list ReplacementRecord
}.

(** Modelled from the spec: the strategies (section 4.4); the extension
    stores one of them in its setting [replaceStrategy]. *)
Inductive Strategy := first | best | all.

(** Modelled from the spec: the options of [replaceText] (section 4.4),
    the object the extension passes to it. *)
Record ReplaceOptions := {
  strategy : Strategy;
  keepOriginalOnNotFound : bool;
  markNotFound : bool
}.

#[export] Instance KaomojiEntry_eq_dec : EqDecision KaomojiEntry.
Proof. solve_decision. Defined.
#[export] Instance MatchKind_eq_dec : EqDecision MatchKind.
Proof. solve_decision. Defined.
#[export] Instance Outcome_eq_dec : EqDecision Outcome.
Proof. solve_decision. Defined.

End Model.

Export Model.

(** ** The core library, from the design document

    The bundle [lib/kaomoji-replacer.umd.min.js] is not part of the
    sources; its four components are modelled here from the text of the
    design document. *)

Module Core.

(** Modelled from the spec: the two operations the document names and
    leaves to the implementer, the normalisation of a keyword (case-fold,
    trim, strip punctuation; section 4.2, step 1) and the similarity
    measure of the fuzzy stage (step 3).  They are parameters of the
    model. *)
Class Matching := {
  normalize : string → string;
  similarity : string → string → Qc
}.

(** Modelled from the spec: the options of [search] (section 4.2), the
    threshold of the fuzzy stage. *)
Record SearchOptions := {
  threshold : Qc
}.

(** Modelled from the spec: the default threshold, 0.3 (section 4.2). *)
Definition default_threshold : Qc := Q2Qc (3 # 10).

(** Modelled from the spec: the match kinds from best to worst
    (section 3; section 4.2, step 2: exact candidates always outrank fuzzy
    ones).  [search] emits the kinds [exact] (the query equals a keyword
    or an alias) and [fuzzy] only. *)
Definition kind_rank (k : MatchKind) : nat :=
  match k with
  | exact => 0
  | aliasMatch => 1
  | fuzzy => 2
  end.

(** Modelled from the spec: the order of the result of [search]
    (section 4.2).  A candidate of a better kind comes first regardless of
    the scores (step 2: exact candidates always outrank fuzzy ones
    regardless of fuzzy score); candidates of one kind are in the order of
    descending score, ties by the position of the entry in the store
    (step 4). *)
Definition outranks (c1 c2 : MatchCandidate) : Prop :=
  (kind_rank (matchKind c1) < kind_rank (matchKind c2))%nat
  ∨ (kind_rank (matchKind c1) = kind_rank (matchKind c2)
     ∧ ((score c2 < score c1)%Qc
        ∨ (score c1 = score c2 ∧ (entryRef c1 ≤ entryRef c2)%nat))).

#[export] Instance outranks_dec : RelDecision outranks.
Proof. intros c1 c2. unfold outranks. apply _. Defined.

(** Modelled from the spec: deduplication (section 4.2, step 4) keeps the
    first candidate of every entry of a ranked sequence. *)
Fixpoint dedupe (seen : gset nat) (cs : list MatchCandidate) : list MatchCandidate :=
  match cs with
  | [] => []
  | c :: cs' =>
    if decide (entryRef c ∈ seen) then dedupe seen cs'
    else c :: dedupe ({[entryRef c]} ∪ seen) cs'
  end.

(** Modelled from the spec: the larger of two scores (section 4.2,
    step 3: the maximum per entry). *)
Definition qmax (a b : Qc) : Qc := if decide (a ≤ b)%Qc then b else a.

(** Modelled from the spec: the token syntax of the scanner (section 4.3),
    the literal opening, keyword characters other than the closing
    bracket, the closing bracket. *)
Definition token_open : string := "[kaomoji:".

(** Modelled from the spec: the keyword characters up to the first
    closing bracket (section 4.3); [None] when the text ends before
    one. *)
Fixpoint read_keyword (s : string) : option string :=
  match s with
  | EmptyString => None
  | String c s' =>
    if Ascii.eqb c "]" then Some EmptyString else String c <$> read_keyword s'
  end.

(** Modelled from the spec: the text from offset [n] on, as the scanner
    and the rewriting pass use it. *)
Fixpoint drop_string (n : nat) (s : string) : string :=
  match n, s with
  | 0, _ => s
  | S n', String _ s' => drop_string n' s'
  | S _, EmptyString => EmptyString
  end.

(** Modelled from the spec: the number of characters of a token with
    keyword [kw] (section 4.3). *)
Definition token_length (kw : string) : nat :=
  String.length token_open + String.length kw + 1.
Arguments token_length : simpl never.

(** Modelled from the spec: the token that starts at the head of [s], if
    there is one (section 4.3); [pos] is the offset of [s] in the scanned
    text.  A token that is not closed is not a token. *)
Definition token_at (pos : nat) (s : string) : option Token :=
  if String.prefix token_open s then
    match read_keyword (drop_string (String.length token_open) s) with
    | Some kw =>
      Some {| rawKeyword := kw;
              startOffset := pos;
              endOffset := pos + token_length kw;
              originalText := substring 0 (token_length kw) s |}
    | None => None
    end
  else None.

(** Modelled from the spec: [scan] (section 4.3), the tokens of a text
    from left to right, without overlap.  [skip] counts the characters
    of the token just emitted that are still to be passed over, [pos] is
    the offset of [s] in the scanned text. *)
Fixpoint scan_from (skip pos : nat) (s : string) : list Token :=
  match s with
  | EmptyString => []
  | String c s' =>
    match skip with
    | S k => scan_from k (S pos) s'
    | 0 =>
      match token_at pos s with
      | Some t => t :: scan_from (token_length (rawKeyword t) - 1) (S pos) s'
      | None => scan_from 0 (S pos) s'
      end
    end
  end.

(** Modelled from the spec: [scan] on a whole text (section 4.3). *)
Definition scan (text : string) : list Token := scan_from 0 0 text.

(** A token found [k] characters further to the right (for the
    statements about parts of a text). *)
Definition shift_token (k : nat) (t : Token) : Token :=
  {| rawKeyword := rawKeyword t;
     startOffset := k + startOffset t;
     endOffset := k + endOffset t;
     originalText := originalText t |}.

(** Modelled from the spec: a text contains a token (section 4.3) when
    the opening, a keyword and the closing bracket occur in it one after
    the other. *)
Definition contains_token (text : string) : Prop :=
  ∃ before kw after, text = before +:+ token_open +:+ kw +:+ "]" +:+ after.

(** Modelled from the spec: the single pass that rewrites the text
    (section 4.4): every span, given by its offsets in the original text,
    is replaced, and the text between the spans is copied. *)
Fixpoint apply_replacements
  (text : string) (cursor : nat) (spans : list (nat * nat * string)) : string :=
  match spans with
  | [] => drop_string cursor text
  | (s, e, r) :: rest =>
    substring cursor (s - cursor) text +:+ r +:+ apply_replacements text e rest
  end.

(** A span found [k] characters further to the right (for the statements
    about parts of a text). *)
Definition shift_span (k : nat) (sp : nat * nat * string) : nat * nat * string :=
  let '(s, e, r) := sp in (k + s, k + e, r).

(** Modelled from the spec: the strategies (section 4.4); all three pick
    the top candidate. *)
Definition select (s : Strategy) (candidates : list MatchCandidate)
  : option MatchCandidate :=
  match s with
  | first => head candidates
  | best => head candidates
  | all => head candidates
  end.

Section WithMatching.
Context `{Mt : Matching}.

(** Modelled from the spec: the keys of an entry in the exact index of
    the store, its keyword and its aliases (section 3). *)
Definition names (e : KaomojiEntry) : list string := keyword e :: aliases e.

(** Modelled from the spec: [lookupExact] of the dataset store
    (section 4.1) on an already normalised keyword, with the position of
    the entry. *)
Definition lookupExact (store : list KaomojiEntry) (q : string)
  : option (nat * KaomojiEntry) :=
  list_find (λ e, q ∈ normalize <$> names e) store.

(** Modelled from the spec: the exact stage of [search] (section 4.2,
    step 2). *)
Definition exact_stage (store : list KaomojiEntry) (q : string)
  : list MatchCandidate :=
  match lookupExact store q with
  | Some (i, e) =>
    [ {| entryRef := i; entry := e; score := 1%Qc; matchKind := exact |} ]
  | None => []
  end.

(** Modelled from the spec: the best similarity of the query to the
    keyword, the aliases and the tags of an entry (section 4.2, step 3). *)
Definition fuzzy_score (q : string) (e : KaomojiEntry) : Qc :=
  foldr qmax (similarity q (keyword e)) (similarity q <$> (aliases e ++ tags e)).

(** Modelled from the spec: the fuzzy stage of [search] (section 4.2,
    step 3). *)
Definition fuzzy_stage (store : list KaomojiEntry) (th : Qc) (q : string)
  : list MatchCandidate :=
  filter (λ c, (th < score c)%Qc)
    (imap (λ i e, {| entryRef := i; entry := e;
                     score := fuzzy_score q e; matchKind := fuzzy |}) store).

(** Modelled from the spec: the candidates of the two stages for the
    normalised query, before ranking (section 4.2, steps 1 to 3). *)
Definition staged (store : list KaomojiEntry) (query : string) (o : SearchOptions)
  : list MatchCandidate :=
  let q := normalize query in
  exact_stage store q ++ fuzzy_stage store (threshold o) q.

(** Modelled from the spec: [search] of the search engine (section 4.2):
    normalise, run the two stages, sort, deduplicate. *)
Definition search (store : list KaomojiEntry) (query : string) (o : SearchOptions)
  : list MatchCandidate :=
  dedupe ∅ (merge_sort outranks (staged store query o)).

(** Modelled from the spec: a query that matches nothing (section 4.2):
    no keyword or alias equals it, and no entry has a similarity above
    the threshold. *)
Definition unmatched (store : list KaomojiEntry) (query : string) (o : SearchOptions)
  : Prop :=
  lookupExact store (normalize query) = None
  ∧ ∀ e, e ∈ store → ¬ (threshold o < fuzzy_score (normalize query) e)%Qc.

(** Modelled from the spec: the ordering invariant of the candidates as
    section 3 words it, by itself: descending score, ties broken by the
    position of the entry in the store. *)
Definition sorted_by_score_then_position (found : list MatchCandidate) : Prop :=
  ∀ i j ci cj, (i < j)%nat → found !! i = Some ci → found !! j = Some cj →
    (score cj ≤ score ci)%Qc
    ∧ (score ci = score cj → (entryRef ci < entryRef cj)%nat).

(** Modelled from the spec: the marker [[?keyword]] of a keyword that was
    not found (section 4.4). *)
Definition marker (kw : string) : string := "[?" +:+ kw +:+ "]".

(** Modelled from the spec: what a token that was not found becomes
    (section 4.4, [keepOriginalOnNotFound] and [markNotFound]): the token
    as it was, the marker, or nothing. *)
Definition not_found_text (o : ReplaceOptions) (t : Token) : string :=
  if keepOriginalOnNotFound o then originalText t
  else if markNotFound o then marker (rawKeyword t)
  else EmptyString.

(** Modelled from the spec: the record of a token that was not found,
    with the outcome the two flags ask for (sections 3 and 4.4). *)
Definition not_found_record (o : ReplaceOptions) (t : Token) : ReplacementRecord :=
  {| recKeyword := rawKeyword t;
     outcome := if keepOriginalOnNotFound o then notFoundKept
                else if markNotFound o then notFoundMarked
                else notFoundRemoved;
     chosenKaomoji := None |}.

(** Modelled from the spec: what one token becomes (section 4.4): the
    kaomoji of the candidate selected for its normalised keyword, or the
    not-found text. *)
Definition resolve
  (store : list KaomojiEntry) (so : SearchOptions) (o : ReplaceOptions) (t : Token)
  : string * ReplacementRecord :=
  match select (strategy o) (search store (normalize (rawKeyword t)) so) with
  | Some c =>
    (kaomoji (entry c),
     {| recKeyword := rawKeyword t; outcome := replaced;
        chosenKaomoji := Some (kaomoji (entry c)) |})
  | None => (not_found_text o t, not_found_record o t)
  end.

(** Modelled from the spec: the replacement span of a token, its offsets
    in the original text and what it becomes (section 4.4). *)
Definition span_of (store : list KaomojiEntry) (so : SearchOptions)
  (o : ReplaceOptions) (t : Token) : nat * nat * string :=
  (startOffset t, endOffset t, fst (resolve store so o t)).

(** Modelled from the spec: a record counts as a success when its
    outcome is [replaced], as a failure otherwise (section 4.4). *)
Definition is_replaced (r : ReplacementRecord) : bool :=
  bool_decide (outcome r = replaced).

(** Modelled from the spec: [replaceText] of the replacement engine
    (section 4.4): scan once, resolve every token from left to right,
    rewrite the text in one pass over the original offsets, count. *)
Definition replaceText
  (store : list KaomojiEntry) (so : SearchOptions) (txt : string) (o : ReplaceOptions)
  : ReplacementResult :=
  let tokens := scan txt in
  let recs := (λ t, snd (resolve store so o t)) <$> tokens in
  let successes := length (filter (λ r, is_replaced r = true) recs) in
  let failures := length (filter (λ r, is_replaced r = false) recs) in
  {| text := apply_replacements txt 0 (span_of store so o <$> tokens);
     hasReplacements := bool_decide (0 < successes + failures)%nat;
     successCount := successes;
     failureCount := failures;
     records := recs |}.

End WithMatching.

(** A matching for examples: keywords are compared as they are, and the
    similarity is 1 on equal strings, 1/2 when the query is a proper
    prefix of the field, 0 otherwise. *)
Definition sample_matching : Matching := {|
  normalize := λ s, s;
  similarity := λ q s,
    if String.eqb q s then 1%Qc
    else if negb (String.eqb q EmptyString) && String.prefix q s then Q2Qc (1 # 2)
    else 0%Qc
|}.

Definition sample_store : list KaomojiEntry :=
  [ {| keyword := "happy"; kaomoji := "(^_^)"; aliases := ["joy"]; tags := ["smile"] |};
    {| keyword := "shrug"; kaomoji := "(._.)"; aliases := []; tags := ["happy"] |};
    {| keyword := "happyish"; kaomoji := "(^.^)"; aliases := []; tags := [] |} ].

Definition sample_options : SearchOptions := {| threshold := default_threshold |}.

(** A store in which a tag of the first entry is the keyword of the
    second: on the query "happy" the fuzzy candidate of the first entry
    and the exact candidate of the second both have score 1. *)
Definition tie_store : list KaomojiEntry :=
  [ {| keyword := "shrug"; kaomoji := "(._.)"; aliases := []; tags := ["happy"] |};
    {| keyword := "happy"; kaomoji := "(^_^)"; aliases := []; tags := [] |} ].

(** The dataset of the examples of the design document (section 8). *)
Definition happy_store : list KaomojiEntry :=
  [ {| keyword := "happy"; kaomoji := "(^_^)"; aliases := []; tags := [] |} ].

End Core.

(** ** The extension, from [index.js] *)

Module Extension.

(** JavaScript exceptions, by constructor and message: every value that
    is thrown is an error object. *)
Inductive exn :=
| Error (message : string)
| TypeError (message : string).

(** How a call ends: it returns a value or it throws. *)
Inductive completion (A : Type) :=
| Returned (a : A)
| Thrown (e : exn).
Arguments Returned {A} a.
Arguments Thrown {A} e.

(** [extension_settings[EXT_NAME]]. *)
Record Settings := {
  enabled : bool;
  autoProcess : bool;
  modifyMode : string;
  processUserMessages : bool;
  processAIMessages : bool;
  replaceStrategy : Strategy;
  settingKeepOriginalOnNotFound : bool;
  settingMarkNotFound : bool
}.

Definition defaultSettings : Settings := {|
  enabled := true;
  autoProcess := true;
  modifyMode := "display";
  processUserMessages := false;
  processAIMessages := true;
  replaceStrategy := best;
  settingKeepOriginalOnNotFound := true;
  settingMarkNotFound := false
|}.

(** A chat message of the host.  [extra] is the optional object the
    extension writes its two keys into; the keys of other extensions
    live in the same map. *)
Record Message := {
  name : string;
  mes : string;
  is_user : bool;
  is_system : bool;
  extra : option (gmap string string)
}.

#[export] Instance Message_eq_dec : EqDecision Message.
Proof. solve_decision. Defined.

Definition set_mes (s : string) (m : Message) : Message :=
  {| name := name m; mes := s; is_user := is_user m;
     is_system := is_system m; extra := extra m |}.

Definition set_extra (e : option (gmap string string)) (m : Message) : Message :=
  {| name := name m; mes := mes m; is_user := is_user m;
     is_system := is_system m; extra := e |}.

(** The object [message.extra] once it is known to exist. *)
Definition extra_obj (m : Message) : gmap string string :=
  default ∅ (extra m).

(** [message?.extra?.key]. *)
Definition extra_get (key : string) (m : Message) : option string :=
  extra m ≫= (.!! key).

(** Truthiness of a property that holds a string when present:
    [undefined] and the empty string are falsy. *)
Definition truthy (v : option string) : bool :=
  match v with
  | Some s => negb (String.eqb s "")
  | None => false
  end.

(** A [fetch] response. *)
Record Response := {
  ok : bool;
  status : nat;
  body : completion string
}.

Inductive EventType := MESSAGE_RECEIVED | MESSAGE_SENT | MESSAGE_EDITED.

(** Calls into the host that the extension makes for their effect.
    [updateMessageBlock] receives the message object itself, which the
    host reads from the chat. *)
Inductive HostCall :=
| Fetch (url : string)
| UpdateMessageBlock (messageId : nat)
| SaveChat
| Emit (event : EventType) (messageId : nat).

(** The API of the UMD bundle ([window.KaomojiReplacer]), as the
    extension uses it.  The methods of the data manager and
    [loadKaomojis] may throw and mutate their receiver; [replaceText]
    only reads the replacer and raises nothing (sections 5 and 7 of the
    design document). *)
Class KaomojiReplacerLib := {
  Manager : Type;
  Replacer : Type;
  new_KaomojiDataManager : Manager;
  loadFromJSON : string → Manager → Manager * completion unit;
  getAllKaomojis : Manager → list KaomojiEntry;
  new_KaomojiReplacer : Replacer;
  setConfig : Strategy → Replacer → Replacer;
  loadKaomojis : list KaomojiEntry → Replacer → Replacer * completion unit;
  replaceText : Replacer → string → ReplaceOptions → ReplacementResult
}.

Section WithLib.
Context `{Lib : KaomojiReplacerLib}.

(** Everything the extension reads and writes: the chat of
    [getContext()], the settings [extension_settings[EXT_NAME]] (present
    from [initSettings] on), the module variable [replacer] ([null] until
    [initCoreModules]), the data manager allocated by [loadKaomojiData],
    and the calls made to the host so far. *)
Record World := {
  chat : list Message;
  extension_settings : Settings;
  replacer : option Replacer;
  manager : Manager;
  trace : list HostCall
}.

Definition with_chat (c : list Message) (w : World) : World :=
  {| chat := c; extension_settings := extension_settings w;
     replacer := replacer w; manager := manager w; trace := trace w |}.

Definition with_settings (s : Settings) (w : World) : World :=
  {| chat := chat w; extension_settings := s;
     replacer := replacer w; manager := manager w; trace := trace w |}.

Definition with_replacer (r : option Replacer) (w : World) : World :=
  {| chat := chat w; extension_settings := extension_settings w;
     replacer := r; manager := manager w; trace := trace w |}.

Definition with_manager (m : Manager) (w : World) : World :=
  {| chat := chat w; extension_settings := extension_settings w;
     replacer := replacer w; manager := m; trace := trace w |}.

Definition with_trace (t : list HostCall) (w : World) : World :=
  {| chat := chat w; extension_settings := extension_settings w;
     replacer := replacer w; manager := manager w; trace := t |}.

(** The host: what the network answers to a [fetch], and whether a call
    made for its effect throws in the current state.  A host call leaves
    the chat, the settings and the module variables as they are. *)
Record Host := {
  fetch_result : string → completion Response;
  host_throws : HostCall → World → option exn
}.

Context (host : Host).

(** *** The monad of extension code: state that survives a throw *)

Definition M (A : Type) : Type := World → World * completion A.

Definition ret {A} (a : A) : M A := λ w, (w, Returned a).

Definition throw {A} (e : exn) : M A := λ w, (w, Thrown e).

Definition bind {A B} (m : M A) (k : A → M B) : M B :=
  λ w, match m w with
       | (w', Returned a) => k a w'
       | (w', Thrown e) => (w', Thrown e)
       end.

Definition try_catch {A} (m : M A) (handler : exn → M A) : M A :=
  λ w, match m w with
       | (w', Returned a) => (w', Returned a)
       | (w', Thrown e) => handler e w'
       end.

Definition gets {A} (f : World → A) : M A := λ w, (w, Returned (f w)).

Definition modify (f : World → World) : M unit := λ w, (f w, Returned tt).

Notation "x <- m ;; k" := (bind m (λ x, k))
  (at level 100, m at next level, right associativity).
Notation "m ;;; k" := (bind m (λ _, k))
  (at level 100, right associativity).

(** *** Host calls and library calls *)

Definition call_host (c : HostCall) : M unit :=
  λ w, let w' := with_trace (trace w ++ [c]) w in
       match host_throws host c w with
       | Some e => (w', Thrown e)
       | None => (w', Returned tt)
       end.

Definition fetch (url : string) : M Response :=
  λ w, (with_trace (trace w ++ [Fetch url]) w, fetch_result host url).

Definition response_text (response : Response) : M string :=
  λ w, (w, body response).

(** [manager.loadFromJSON(jsonText)] *)
Definition manager_loadFromJSON (jsonText : string) : M unit :=
  λ w, let '(m, c) := loadFromJSON jsonText (manager w) in (with_manager m w, c).

(** [replacer.loadKaomojis(data)]; a TypeError while [replacer] is null. *)
Definition replacer_loadKaomojis (data : list KaomojiEntry) : M unit :=
  λ w, match replacer w with
       | None => (w, Thrown (TypeError "replacer is null"))
       | Some r => let '(r', c) := loadKaomojis data r in
                   (with_replacer (Some r') w, c)
       end.

(** [replacer.replaceText(text, options)]; a TypeError while [replacer]
    is null. *)
Definition replacer_replaceText (text : string) (options : ReplaceOptions)
  : M ReplacementResult :=
  λ w, match replacer w with
       | None => (w, Thrown (TypeError "replacer is null"))
       | Some r => (w, Returned (replaceText r text options))
       end.

(** A write to the object [context.chat[messageId]]: every holder of the
    chat sees it. *)
Definition update_message (messageId : nat) (f : Message → Message) : M unit :=
  modify (λ w, with_chat (alter f messageId (chat w)) w).

(** [message.extra.key = v] *)
Definition set_extra_key (key v : string) (m : Message) : Message :=
  set_extra (Some (<[key := v]> (extra_obj m))) m.

(** [delete message.extra.key] *)
Definition delete_extra_key (key : string) (m : Message) : Message :=
  set_extra (delete key <$> extra m) m.

(** [if (!message.extra) { message.extra = {}; }] *)
Definition init_extra (m : Message) : Message :=
  if extra m is None then set_extra (Some ∅) m else m.

(** [if (!message.extra.kaomoji_original) {
       message.extra.kaomoji_original = originalContent; }] *)
Definition backup_original (originalContent : string) (m : Message) : Message :=
  if truthy (extra_get "kaomoji_original" m) then m
  else set_extra_key "kaomoji_original" originalContent m.

(** The options object [processMessage] builds from the settings. *)
Definition replace_options (settings : Settings) : ReplaceOptions :=
  {| strategy := replaceStrategy settings;
     keepOriginalOnNotFound := settingKeepOriginalOnNotFound settings;
     markNotFound := settingMarkNotFound settings |}.

(** *** loadKaomojiData *)

Definition EXT_FOLDER : string := "scripts/extensions/third-party/kaomoji-replacer".

Definition user_data_url : string := "/" +:+ EXT_FOLDER +:+ "/data/kaomojis.json".

Definition template_data_url : string :=
  "/" +:+ EXT_FOLDER +:+ "/data/kaomojis.template.json".

(** The body both [try] blocks share: fetch, check [response.ok], read the
    text, parse it into the manager, hand the entries to the replacer. *)
Definition load_from (url : string) (not_ok : nat → string) : M unit :=
  response <- fetch url;;
  if negb (ok response) then throw (Error (not_ok (status response)))
  else
    jsonText <- response_text response;;
    manager_loadFromJSON jsonText;;;
    data <- gets (λ w, getAllKaomojis (manager w));;
    replacer_loadKaomojis data.

(** The messages of the two errors thrown on a response that is not ok. *)
Definition user_not_ok (st : nat) : string := "HTTP " +:+ pretty st.

Definition template_not_ok (st : nat) : string :=
  "Template not found: " +:+ pretty st.

Definition loadKaomojiData : M unit :=
  modify (with_manager new_KaomojiDataManager);;;
  try_catch
    (load_from user_data_url user_not_ok)
    (λ error,
       try_catch
         (load_from template_data_url template_not_ok)
         (λ fallbackError, throw (Error "No kaomoji data available"))).

(** *** initCoreModules *)

Definition initCoreModules : M unit :=
  settings <- gets extension_settings;;
  modify (with_replacer
            (Some (setConfig (replaceStrategy settings) new_KaomojiReplacer)));;;
  loadKaomojiData.

(** *** modifyMessageDisplay, modifyMessageContent *)

Definition modifyMessageDisplay
  (messageId : nat) (displayContent originalContent : string) : M bool :=
  context_chat <- gets chat;;
  match context_chat !! messageId with
  | None => ret false
  | Some _ =>
    update_message messageId init_extra;;;
    update_message messageId (backup_original originalContent);;;
    update_message messageId (set_extra_key "display_text" displayContent);;;
    call_host (UpdateMessageBlock messageId);;;
    call_host SaveChat;;;
    ret true
  end.

Definition modifyMessageContent
  (messageId : nat) (newContent originalContent : string) : M bool :=
  context_chat <- gets chat;;
  match context_chat !! messageId with
  | None => ret false
  | Some _ =>
    update_message messageId init_extra;;;
    update_message messageId (backup_original originalContent);;;
    update_message messageId (set_mes newContent);;;
    call_host (UpdateMessageBlock messageId);;;
    call_host SaveChat;;;
    call_host (Emit MESSAGE_EDITED messageId);;;
    ret true
  end.

(** *** processMessage *)

Definition processMessage (messageId : nat) : M bool :=
  try_catch
    (context_chat <- gets chat;;
     match context_chat !! messageId with
     | None => ret false
     | Some message =>
       if is_system message then ret false
       else
         settings <- gets extension_settings;;
         if is_user message && negb (processUserMessages settings) then ret false
         else if negb (is_user message) && negb (processAIMessages settings)
         then ret false
         else
           let originalText := mes message in
           result <- replacer_replaceText originalText (replace_options settings);;
           if negb (hasReplacements result) || Nat.eqb (successCount result) 0
           then ret false
           else
             (if String.eqb (modifyMode settings) "display"
              then modifyMessageDisplay messageId (text result) originalText
              else modifyMessageContent messageId (text result) originalText);;;
             ret true
     end)
    (λ error, ret false).

(** *** restoreMessage *)

Definition restoreMessage (messageId : nat) : M bool :=
  context_chat <- gets chat;;
  let message := context_chat !! messageId in
  match message ≫= extra_get "kaomoji_original" with
  | Some originalContent =>
    if negb (truthy (Some originalContent)) then ret false
    else
      settings <- gets extension_settings;;
      (if String.eqb (modifyMode settings) "display"
       then update_message messageId (delete_extra_key "display_text")
       else update_message messageId (set_mes originalContent));;;
      update_message messageId (delete_extra_key "kaomoji_original");;;
      call_host (UpdateMessageBlock messageId);;;
      call_host SaveChat;;;
      ret true
  | None => ret false
  end.

(** *** processAllMessages, restoreAllMessages *)

(** [for (let i = 0; i < context.chat.length; i++)], counting the calls
    that return [true]; [todo] is the number of iterations left. *)
Fixpoint count_loop (body : nat → M bool) (todo i count : nat) : M nat :=
  match todo with
  | 0 => ret count
  | S todo' =>
    success <- body i;;
    count_loop body todo' (S i) (if success then S count else count)
  end.

Definition processAllMessages : M nat :=
  context_chat <- gets chat;;
  count_loop processMessage (length context_chat) 0 0.

Definition restoreAllMessages : M nat :=
  context_chat <- gets chat;;
  count_loop restoreMessage (length context_chat) 0 0.

(** *** registerEventListeners: the two handlers *)

Definition on_event (event : EventType) (messageId : nat) : M unit :=
  settings <- gets extension_settings;;
  match event with
  | MESSAGE_RECEIVED =>
    if enabled settings && autoProcess settings && processAIMessages settings
    then processMessage messageId;;; ret tt else ret tt
  | MESSAGE_SENT =>
    if enabled settings && autoProcess settings && processUserMessages settings
    then processMessage messageId;;; ret tt else ret tt
  | MESSAGE_EDITED => ret tt
  end.

(** *** What the host and the user do between calls of the extension *)

(** A step of a session on an initialised extension: the host has
    [processMessage] run on a message, or the user changes the settings. *)
Inductive SessionStep :=
| Process (messageId : nat)
| Configure (settings : Settings).

Definition session_step (s : SessionStep) (w : World) : World :=
  match s with
  | Process messageId => fst (processMessage messageId w)
  | Configure settings => with_settings settings w
  end.

Definition session (steps : list SessionStep) (w : World) : World :=
  foldl (λ w s, session_step s w) w steps.

(** *** Vocabulary of the statements *)

(** [processMessage] returns before it modifies anything: the message is
    missing or a system message, its kind is switched off, or the
    replacement reports nothing replaced. *)
Definition skipped (w : World) (messageId : nat) : Prop :=
  match chat w !! messageId with
  | None => True
  | Some m =>
    let settings := extension_settings w in
    is_system m = true
    ∨ (is_user m = true ∧ processUserMessages settings = false)
    ∨ (is_user m = false ∧ processAIMessages settings = false)
    ∨ (∃ r, replacer w = Some r
            ∧ let result := replaceText r (mes m) (replace_options settings) in
              hasReplacements result = false ∨ successCount result = 0)
  end.

(** The three writes of [modifyMessageDisplay] to the message object, and
    those of [modifyMessageContent], in one step. *)
Definition display_update (d o : string) : Message → Message :=
  set_extra_key "display_text" d ∘ backup_original o ∘ init_extra.

Definition content_update (n o : string) : Message → Message :=
  set_mes n ∘ backup_original o ∘ init_extra.

(** The write [processMessage] makes to a message it does not skip. *)
Definition mode_update (settings : Settings) (result : ReplacementResult)
  (m : Message) : Message → Message :=
  if String.eqb (modifyMode settings) "display"
  then display_update (text result) (mes m)
  else content_update (text result) (mes m).

(** The host calls of a modification that runs to its end. *)
Definition mode_calls (settings : Settings) (messageId : nat) : list HostCall :=
  if String.eqb (modifyMode settings) "display"
  then [UpdateMessageBlock messageId; SaveChat]
  else [UpdateMessageBlock messageId; SaveChat; Emit MESSAGE_EDITED messageId].

(** The writes of [restoreMessage] to a message with the backup
    [originalContent]. *)
Definition restore_update (settings : Settings) (originalContent : string)
  : Message → Message :=
  delete_extra_key "kaomoji_original"
  ∘ (if String.eqb (modifyMode settings) "display"
     then delete_extra_key "display_text"
     else set_mes originalContent).

(** The backup [message.extra.kaomoji_original] of a message of the chat. *)
Definition backup_of (w : World) (messageId : nat) : option string :=
  chat w !! messageId ≫= extra_get "kaomoji_original".

(** The fetch of a URL fails: the request is rejected, or the response
    is not ok. *)
Definition fetch_fails (url : string) : Prop :=
  (∃ e, fetch_result host url = Thrown e)
  ∨ (∃ response, fetch_result host url = Returned response ∧ ok response = false).

(** The state [w'] holds the entries of the dataset served at [url]: the
    response was ok, its text was parsed into the manager, and the
    entries of the manager were loaded into the replacer. *)
Definition loaded_from (url : string) (w w' : World) : Prop :=
  ∃ response jsonText m r r',
    fetch_result host url = Returned response ∧ ok response = true
    ∧ body response = Returned jsonText
    ∧ loadFromJSON jsonText (manager w) = (m, Returned tt)
    ∧ replacer w = Some r
    ∧ loadKaomojis (getAllKaomojis m) r = (r', Returned tt)
    ∧ manager w' = m ∧ replacer w' = Some r'.

(** No call of the host throws. *)
Definition host_returns : Prop := ∀ c w, host_throws host c w = None.

(** The library reports no successful replacement on the empty text (the
    empty-input case of section 4.4 of the design document). *)
Definition nothing_replaced_in_empty_text : Prop :=
  ∀ r o, hasReplacements (replaceText r "" o) = false
         ∨ successCount (replaceText r "" o) = 0.

End WithLib.

End Extension.

(** ** The extension: a call seen from the message, and the start-up *)

Module Batch.
Import Extension.

Section WithLib.
Context `{Lib : KaomojiReplacerLib}.

(** The tests of [processMessage] on a message that exists, in the order
    of the source: not a system message, its kind switched on, the
    replacer there, and a result that reports a successful replacement. *)
Definition passes (settings : Settings) (r : option Replacer) (m : Message)
  : bool :=
  if is_system m then false
  else if is_user m && negb (processUserMessages settings) then false
  else if negb (is_user m) && negb (processAIMessages settings) then false
  else
    match r with
    | None => false
    | Some r' =>
      let result := replaceText r' (mes m) (replace_options settings) in
      negb (negb (hasReplacements result) || Nat.eqb (successCount result) 0)
    end.

(** What a call of [processMessage] leaves of the message it is given. *)
Definition processed (settings : Settings) (r : option Replacer) (m : Message)
  : Message :=
  match r with
  | Some r' =>
    if passes settings r m
    then mode_update settings
           (replaceText r' (mes m) (replace_options settings)) m m
    else m
  | None => m
  end.

(** [message?.extra?.kaomoji_original] is truthy. *)
Definition has_backup (m : Message) : bool :=
  truthy (extra_get "kaomoji_original" m).

(** What a call of [restoreMessage] leaves of the message it is given. *)
Definition restored (settings : Settings) (m : Message) : Message :=
  match extra_get "kaomoji_original" m with
  | Some originalContent =>
    if negb (truthy (Some originalContent)) then m
    else restore_update settings originalContent m
  | None => m
  end.

(** The number of messages of a chat that satisfy a test. *)
Definition count_of (test : Message → bool) (l : list Message) : nat :=
  length (filter (λ m, test m = true) l).

End WithLib.

End Batch.

Module Startup.
Import Extension.

#[export] Instance EventType_eq_dec : EqDecision EventType.
Proof. solve_decision. Defined.

(** Calls into the host that only the start-up makes. *)
Inductive PageCall :=
| SaveSettingsDebounced
| LoadFileToDocument (url kind : string).

Section WithLib.
Context `{Lib : KaomojiReplacerLib}.

(** The page the script runs in: the state of the extension, whether the
    slot [extension_settings[EXT_NAME]] is filled ([extension_settings] of
    the world is its value once it is), whether the global
    [window.KaomojiReplacer] is mounted, the module variable
    [isInitialized], the events of [eventSource] that have a handler of
    the extension, in the order of registration, and the calls of the
    start-up to the host. *)
Record Page := {
  world : World;
  settings_defined : bool;
  window_KaomojiReplacer : bool;
  isInitialized : bool;
  listeners : list EventType;
  page_trace : list PageCall
}.

Definition with_world (w : World) (p : Page) : Page :=
  {| world := w; settings_defined := settings_defined p;
     window_KaomojiReplacer := window_KaomojiReplacer p;
     isInitialized := isInitialized p; listeners := listeners p;
     page_trace := page_trace p |}.

Definition with_settings_defined (b : bool) (p : Page) : Page :=
  {| world := world p; settings_defined := b;
     window_KaomojiReplacer := window_KaomojiReplacer p;
     isInitialized := isInitialized p; listeners := listeners p;
     page_trace := page_trace p |}.

Definition with_window_KaomojiReplacer (b : bool) (p : Page) : Page :=
  {| world := world p; settings_defined := settings_defined p;
     window_KaomojiReplacer := b;
     isInitialized := isInitialized p; listeners := listeners p;
     page_trace := page_trace p |}.

Definition with_isInitialized (b : bool) (p : Page) : Page :=
  {| world := world p; settings_defined := settings_defined p;
     window_KaomojiReplacer := window_KaomojiReplacer p;
     isInitialized := b; listeners := listeners p;
     page_trace := page_trace p |}.

Definition with_listeners (l : list EventType) (p : Page) : Page :=
  {| world := world p; settings_defined := settings_defined p;
     window_KaomojiReplacer := window_KaomojiReplacer p;
     isInitialized := isInitialized p; listeners := l;
     page_trace := page_trace p |}.

Definition with_page_trace (t : list PageCall) (p : Page) : Page :=
  {| world := world p; settings_defined := settings_defined p;
     window_KaomojiReplacer := window_KaomojiReplacer p;
     isInitialized := isInitialized p; listeners := listeners p;
     page_trace := t |}.

(** The host of the start-up: the host of the extension, and what
    [loadFileToDocument] does with a script: it rejects, or it resolves
    and the script has mounted its global or has not. *)
Record PageHost := {
  page_host : Host;
  load_file : string → completion bool
}.

Context (ph : PageHost).

Definition log_call (c : PageCall) (p : Page) : Page :=
  with_page_trace (page_trace p ++ [c]) p.

(** *** initSettings *)

Definition initSettings (p : Page) : Page :=
  if negb (settings_defined p)
  then log_call SaveSettingsDebounced
         (with_settings_defined true
            (with_world (with_settings defaultSettings (world p)) p))
  else p.

(** *** loadCoreLibrary *)

Definition bundle_url : string :=
  "/" +:+ EXT_FOLDER +:+ "/lib/kaomoji-replacer.umd.min.js".

Definition loadCoreLibrary (p : Page) : Page * completion unit :=
  let p1 := log_call (LoadFileToDocument bundle_url "js") p in
  match load_file ph bundle_url with
  | Thrown e => (p1, Thrown e)
  | Returned mounted =>
    let p2 := with_window_KaomojiReplacer (window_KaomojiReplacer p1 || mounted) p1 in
    if negb (window_KaomojiReplacer p2)
    then (p2, Thrown (Error "Failed to load KaomojiReplacer UMD bundle"))
    else (p2, Returned tt)
  end.

(** *** registerEventListeners *)

Definition registerEventListeners (p : Page) : Page :=
  with_listeners (listeners p ++ [MESSAGE_RECEIVED; MESSAGE_SENT]) p.

(** Extension code of the module [Extension] run on the page. *)
Definition on_world {A} (m : M A) (p : Page) : Page * completion A :=
  let '(w, c) := m (world p) in (with_world w p, c).

(** *** The entry point: the callback handed to [jQuery] *)

Definition main (p : Page) : Page :=
  let p1 := initSettings p in
  match loadCoreLibrary p1 with
  | (p2, Thrown error) => p2
  | (p2, Returned _) =>
    match on_world (initCoreModules (page_host ph)) p2 with
    | (p3, Thrown error) => p3
    | (p3, Returned _) => with_isInitialized true (registerEventListeners p3)
    end
  end.

(** *** The host emits an event *)

(** [eventSource] calls the handlers registered for the event, in the
    order of registration; a handler reads the settings first, which is a
    TypeError while the slot is empty. *)
Definition dispatch (event : EventType) (messageId : nat) (p : Page) : Page :=
  foldl (λ p registered,
           if bool_decide (registered = event) && settings_defined p
           then fst (on_world (on_event (page_host ph) event messageId) p)
           else p)
        p (listeners p).

(** *** The API object [window.KaomojiReplacerExtension] *)

Definition getSettings (p : Page) : option Settings :=
  if settings_defined p then Some (extension_settings (world p)) else None.

End WithLib.

End Startup.


(** ** Sample instances: the core as the library of the extension *)

Module Samples.
Import Core Extension.

(** The replacer object: the loaded entries and the configured strategy. *)
Record Engine := {
  store : list KaomojiEntry;
  config : Strategy
}.

(** A stand-in for the reader of the serialized dataset: it knows two
    texts. *)
Definition sample_parse (serialized : string) : option (list KaomojiEntry) :=
  if String.eqb serialized "happy,shrug,happyish" then Some sample_store
  else if String.eqb serialized "shrug" then Some (take 1 (drop 1 sample_store))
  else None.

(** The library interface of the extension, implemented by the core. *)
#[export] Instance core_lib : KaomojiReplacerLib := {|
  Manager := list KaomojiEntry;
  Replacer := Engine;
  new_KaomojiDataManager := [];
  loadFromJSON := λ serialized m,
    match sample_parse serialized with
    | Some entries => (entries, Returned tt)
    | None => (m, Thrown (Error "DataFormatError"))
    end;
  getAllKaomojis := λ m, m;
  new_KaomojiReplacer := {| store := []; config := best |};
  setConfig := λ s r, {| store := store r; config := s |};
  loadKaomojis := λ data r, ({| store := data; config := config r |}, Returned tt);
  replaceText := λ r txt o,
    Core.replaceText (Mt := sample_matching) (store r) sample_options txt o
|}.

(** A host whose calls all return, and a network that serves the user
    dataset. *)
Definition quiet_host : Host := {|
  fetch_result := λ url,
    if String.eqb url user_data_url
    then Returned {| ok := true; status := 200; body := Returned "happy,shrug,happyish" |}
    else Returned {| ok := false; status := 404; body := Returned "" |};
  host_throws := λ _ _, None
|}.

(** A network without the user dataset, with the template. *)
Definition template_host : Host := {|
  fetch_result := λ url,
    if String.eqb url template_data_url
    then Returned {| ok := true; status := 200; body := Returned "shrug" |}
    else Returned {| ok := false; status := 404; body := Returned "" |};
  host_throws := λ _ _, None
|}.

(** A network that is down. *)
Definition offline_host : Host := {|
  fetch_result := λ _, Thrown (TypeError "Failed to fetch");
  host_throws := λ _ _, None
|}.

(** A host whose [saveChat] fails. *)
Definition failing_save_host : Host := {|
  fetch_result := fetch_result quiet_host;
  host_throws := λ c _,
    match c with
    | SaveChat => Some (Error "save failed")
    | _ => None
    end
|}.

Definition ai_message (s : string) : Message :=
  {| name := "Assistant"; mes := s; is_user := false; is_system := false;
     extra := None |}.

Definition user_message (s : string) : Message :=
  {| name := "User"; mes := s; is_user := true; is_system := false;
     extra := None |}.

Definition sample_chat : list Message :=
  [ user_message "say hi [kaomoji:happy]";
    ai_message "hi [kaomoji:happy] there";
    ai_message "nothing to replace" ;
    ai_message "[kaomoji:zzz]" ].

(** The state after a successful initialisation, in display mode. *)
Definition sample_world : World := {|
  chat := sample_chat;
  extension_settings := defaultSettings;
  replacer := Some {| store := sample_store; config := best |};
  manager := [];
  trace := []
|}.

Definition content_settings : Settings := {|
  enabled := true;
  autoProcess := true;
  modifyMode := "content";
  processUserMessages := false;
  processAIMessages := true;
  replaceStrategy := best;
  settingKeepOriginalOnNotFound := true;
  settingMarkNotFound := false
|}.

(** The state before [initCoreModules]. *)
Definition fresh_world : World := {|
  chat := sample_chat;
  extension_settings := defaultSettings;
  replacer := None;
  manager := [];
  trace := []
|}.

(** The state after [initCoreModules] has created the replacer, before
    the data is loaded. *)
Definition created_world : World :=
  with_replacer (Some (setConfig best new_KaomojiReplacer)) fresh_world.

(** The sample state after [processMessage] has rewritten message 1 in
    mode 'content'. *)
Definition rewritten_world : World :=
  fst (processMessage quiet_host 1 (with_settings content_settings sample_world)).

(** Options of [replaceText] for the three not-found policies. *)
Definition mark_options : ReplaceOptions :=
  {| strategy := best; keepOriginalOnNotFound := false; markNotFound := true |}.

Definition remove_options : ReplaceOptions :=
  {| strategy := best; keepOriginalOnNotFound := false; markNotFound := false |}.

Definition keep_options : ReplaceOptions :=
  {| strategy := best; keepOriginalOnNotFound := true; markNotFound := false |}.

(** The token of the text [a [kaomoji:sad] b]. *)
Definition sad_token : Token :=
  {| rawKeyword := "sad"; startOffset := 2; endOffset := 15;
     originalText := "[kaomoji:sad]" |}.

End Samples.

(** ** Sample pages and a chat with a system message *)

Module StartupSamples.
Import Core Extension Startup Samples.

Definition system_message (s : string) : Message :=
  {| name := "System"; mes := s; is_user := false; is_system := true;
     extra := None |}.

(** The sample state with a system message at the end of the chat. *)
Definition system_world : World :=
  with_chat (sample_chat ++ [system_message "[kaomoji:happy]"]) sample_world.

(** The page before the script has run: no settings of the extension, no
    global, no handler. *)
Definition fresh_page : Page := {|
  world := fresh_world;
  settings_defined := false;
  window_KaomojiReplacer := false;
  isInitialized := false;
  listeners := [];
  page_trace := []
|}.

(** A host that loads the bundle, on the network of [quiet_host]. *)
Definition good_page_host : PageHost := {|
  page_host := quiet_host;
  load_file := λ _, Returned true
|}.

(** A host on which the script of the bundle runs without mounting its
    global. *)
Definition broken_bundle_host : PageHost := {|
  page_host := quiet_host;
  load_file := λ _, Returned false
|}.

End StartupSamples.


(** ** Properties of the extension *)

Module ExtensionProps.
Import Extension.

Section WithLib.
Context `{Lib : KaomojiReplacerLib} (host : Host).

(** Unfolds the monad so that a run of extension code is a term of
    [World * completion _]. *)
Ltac run :=
  unfold bind, try_catch, gets, modify, ret, throw, update_message, call_host;
  simpl.

(** Settles a run of host calls: one case for every call that throws or
    returns, the trace and the completion read off in each. *)
Ltac host_cases :=
  repeat case_match; simplify_eq/=; rewrite <-?app_assoc; simpl;
  eexists _, _; (split; [reflexivity|]);
  repeat split; eauto; try done;
  let Hr := fresh "Hr" in
  intros Hr;
  repeat match goal with
         | H : host_throws _ _ _ = Some _ |- _ => rewrite Hr in H
         end;
  done.

(** A run is determined by its final state and its completion. *)
Lemma run_eta {A} (run : World * completion A) (c : completion A) :
  snd run = c → run = (fst run, c).
Proof. destruct run as [w c']. simpl. by intros ->. Qed.

(** *** The message object under the three writes *)

Lemma extra_get_set_extra_key key v k m :
  extra_get k (set_extra_key key v m)
  = if decide (key = k) then Some v else extra_get k m.
Proof.
  unfold extra_get, set_extra_key, extra_obj; simpl.
  rewrite lookup_insert. case_decide; [done|].
  destruct (extra m); simpl; [done | apply lookup_empty].
Qed.

Lemma extra_get_delete_extra_key key k m :
  extra_get k (delete_extra_key key m)
  = if decide (key = k) then None else extra_get k m.
Proof.
  unfold extra_get, delete_extra_key; simpl.
  destruct (extra m); simpl; [|by case_decide].
  apply lookup_delete.
Qed.

Lemma extra_get_init_extra k m : extra_get k (init_extra m) = extra_get k m.
Proof.
  destruct m as [? ? ? ? [e|]]; unfold init_extra, extra_get; simpl; [done|].
  apply lookup_empty.
Qed.

Lemma extra_get_backup_original o k m :
  extra_get k (backup_original o m)
  = if decide ("kaomoji_original" = k)
    then (if truthy (extra_get k m) then extra_get k m else Some o)
    else extra_get k m.
Proof.
  unfold backup_original.
  case_decide as Hk.
  - subst k. destruct (truthy _) eqn:Ht; [done|].
    rewrite extra_get_set_extra_key. by rewrite decide_True.
  - destruct (truthy _); [done|].
    rewrite extra_get_set_extra_key. by rewrite decide_False.
Qed.

Lemma extra_get_set_mes s k m : extra_get k (set_mes s m) = extra_get k m.
Proof. done. Qed.

(** *** Runs of the two modifying functions *)

Lemma modifyMessageDisplay_run messageId d o w m :
  chat w !! messageId = Some m →
  ∃ t c, modifyMessageDisplay host messageId d o w
         = (with_trace (trace w ++ t)
              (with_chat (alter (display_update d o) messageId (chat w)) w), c)
       ∧ (c = Returned true ∨ ∃ e, c = Thrown e)
       ∧ (c = Returned true → t = [UpdateMessageBlock messageId; SaveChat])
       ∧ (host_returns host → c = Returned true).
Proof.
  intros Hm. unfold modifyMessageDisplay, display_update. run. rewrite Hm.
  rewrite !list_alter_alter_eq.
  host_cases.
Qed.

Lemma modifyMessageContent_run messageId n o w m :
  chat w !! messageId = Some m →
  ∃ t c, modifyMessageContent host messageId n o w
         = (with_trace (trace w ++ t)
              (with_chat (alter (content_update n o) messageId (chat w)) w), c)
       ∧ (c = Returned true ∨ ∃ e, c = Thrown e)
       ∧ (c = Returned true
          → t = [UpdateMessageBlock messageId; SaveChat; Emit MESSAGE_EDITED messageId])
       ∧ (host_returns host → c = Returned true).
Proof.
  intros Hm. unfold modifyMessageContent, content_update. run. rewrite Hm.
  rewrite !list_alter_alter_eq.
  host_cases.
Qed.

(** *** Runs of processMessage *)

Lemma processMessage_skipped w messageId :
  skipped w messageId → processMessage host messageId w = (w, Returned false).
Proof.
  unfold skipped, processMessage, replacer_replaceText. run. cbv zeta.
  destruct (chat w !! messageId) as [m|]; [|done].
  intros Hskip. destruct (is_system m) eqn:Hsys; [done|].
  destruct Hskip as [Hs|[[Hu Hp]|[[Hu Hp]|(r & Hr & Hres)]]]; simpl.
  - done.
  - by rewrite Hu, Hp.
  - by rewrite Hu, Hp.
  - destruct (is_user m && _); [done|].
    destruct (negb (is_user m) && _); [done|].
    rewrite Hr.
    destruct Hres as [-> | ->]; simpl; [done|].
    by rewrite orb_true_r.
Qed.

Lemma processMessage_uninitialised w messageId :
  replacer w = None → processMessage host messageId w = (w, Returned false).
Proof.
  intros Hr. unfold processMessage, replacer_replaceText. run.
  repeat case_match; simplify_eq/=; try done; congruence.
Qed.

Lemma processMessage_modifies w messageId :
  ¬ skipped w messageId → is_Some (replacer w) →
  ∃ m r t c,
    chat w !! messageId = Some m ∧ replacer w = Some r
    ∧ let settings := extension_settings w in
      let result := replaceText r (mes m) (replace_options settings) in
      processMessage host messageId w
      = (with_trace (trace w ++ t)
           (with_chat (alter (mode_update settings result m) messageId (chat w)) w),
         c)
      ∧ (c = Returned true ∨ c = Returned false)
      ∧ (c = Returned true → t = mode_calls settings messageId)
      ∧ (host_returns host → c = Returned true).
Proof.
  intros Hns [r Hr]. unfold skipped in Hns.
  destruct (chat w !! messageId) as [m|] eqn:Hm; [|by destruct Hns].
  exists m, r.
  assert (is_system m = false) as Hsys
    by (destruct (is_system m); [destruct Hns; by left | done]).
  assert (is_user m && negb (processUserMessages (extension_settings w)) = false)
    as Hu.
  { apply not_true_is_false. intros [? ?%negb_true_iff]%andb_true_iff.
    apply Hns. right; left. done. }
  assert (negb (is_user m) && negb (processAIMessages (extension_settings w)) = false)
    as Ha.
  { apply not_true_is_false.
    intros [?%negb_true_iff ?%negb_true_iff]%andb_true_iff.
    apply Hns. right; right; left. done. }
  set (result := replaceText r (mes m) (replace_options (extension_settings w))).
  assert (negb (hasReplacements result) || Nat.eqb (successCount result) 0 = false)
    as Hres.
  { apply not_true_is_false.
    intros [?%negb_true_iff | ?%Nat.eqb_eq]%orb_true_iff;
      apply Hns; right; right; right; exists r; split; auto. }
  unfold processMessage, replacer_replaceText, mode_update, mode_calls. run.
  rewrite Hm, Hsys; simpl. rewrite Hu; simpl. rewrite Ha; simpl. rewrite Hr.
  fold result. rewrite Hres.
  destruct (String.eqb (modifyMode (extension_settings w)) "display").
  - destruct (modifyMessageDisplay_run messageId (text result) (mes m) w m Hm)
      as (t & c & -> & Hc & Ht & Hh).
    exists t. destruct Hc as [-> | [e ->]]; unfold ret.
    + exists (Returned true). eauto 10.
    + exists (Returned false). do 3 (split; [done|]).
      split; [eauto|]. split; [done|]. intros Hret. by specialize (Hh Hret).
  - destruct (modifyMessageContent_run messageId (text result) (mes m) w m Hm)
      as (t & c & -> & Hc & Ht & Hh).
    exists t. destruct Hc as [-> | [e ->]]; unfold ret.
    + exists (Returned true). eauto 10.
    + exists (Returned false). do 3 (split; [done|]).
      split; [eauto|]. split; [done|]. intros Hret. by specialize (Hh Hret).
Qed.

Lemma skipped_or_not w messageId : skipped w messageId ∨ ¬ skipped w messageId.
Proof.
  unfold skipped. destruct (chat w !! messageId) as [m|]; [|by left]. cbv zeta.
  destruct (is_system m); [by left; left|].
  destruct (is_user m) eqn:Hu.
  - destruct (processUserMessages (extension_settings w)); [|by left; right; left].
    destruct (replacer w) as [r|].
    + destruct (hasReplacements (replaceText r (mes m)
                  (replace_options (extension_settings w)))) eqn:Hh;
        [|left; right; right; right; exists r; auto].
      destruct (decide (successCount (replaceText r (mes m)
                  (replace_options (extension_settings w))) = 0)) as [Hz|Hz];
        [left; right; right; right; exists r; auto|].
      right. intros [?|[[? ?]|[[? ?]|(r' & ? & [?|?])]]]; simplify_eq; congruence.
    + right. intros [?|[[? ?]|[[? ?]|(r' & ? & ?)]]]; simplify_eq.
  - destruct (processAIMessages (extension_settings w));
      [|by left; right; right; left].
    destruct (replacer w) as [r|].
    + destruct (hasReplacements (replaceText r (mes m)
                  (replace_options (extension_settings w)))) eqn:Hh;
        [|left; right; right; right; exists r; auto].
      destruct (decide (successCount (replaceText r (mes m)
                  (replace_options (extension_settings w))) = 0)) as [Hz|Hz];
        [left; right; right; right; exists r; auto|].
      right. intros [?|[[? ?]|[[? ?]|(r' & ? & [?|?])]]]; simplify_eq; congruence.
    + right. intros [?|[[? ?]|[[? ?]|(r' & ? & ?)]]]; simplify_eq.
Qed.

(** The three ways a call of [processMessage] goes. *)
Lemma processMessage_cases w messageId :
  processMessage host messageId w = (w, Returned false)
  ∨ ∃ m r t c,
      ¬ skipped w messageId
      ∧ chat w !! messageId = Some m ∧ replacer w = Some r
      ∧ let settings := extension_settings w in
        let result := replaceText r (mes m) (replace_options settings) in
        processMessage host messageId w
        = (with_trace (trace w ++ t)
             (with_chat (alter (mode_update settings result m) messageId (chat w)) w),
           c)
        ∧ (c = Returned true ∨ c = Returned false)
        ∧ (c = Returned true → t = mode_calls settings messageId)
        ∧ (host_returns host → c = Returned true).
Proof.
  destruct (skipped_or_not w messageId) as [Hs|Hs];
    [left; by apply processMessage_skipped|].
  destruct (replacer w) as [r|] eqn:Hr;
    [|left; by apply processMessage_uninitialised].
  right. destruct (processMessage_modifies w messageId Hs) as (m & r' & t & c & H);
    [by rewrite Hr|].
  exists m, r', t, c. rewrite <-Hr. tauto.
Qed.

Lemma processMessage_true w messageId w' :
  processMessage host messageId w = (w', Returned true) →
  ∃ m r,
    ¬ skipped w messageId
    ∧ chat w !! messageId = Some m ∧ replacer w = Some r
    ∧ let settings := extension_settings w in
      let result := replaceText r (mes m) (replace_options settings) in
      w' = with_trace (trace w ++ mode_calls settings messageId)
             (with_chat (alter (mode_update settings result m) messageId (chat w)) w).
Proof.
  intros Hrun.
  destruct (processMessage_cases w messageId)
    as [Hf|(m & r & t & c & Hs & Hm & Hr & Heq & _ & Ht & _)].
  - rewrite Hf in Hrun. simplify_eq.
  - exists m, r. do 3 (split; [done|]). cbv zeta in *.
    rewrite Heq in Hrun. simplify_eq. by rewrite Ht.
Qed.

(** *** What the updates do to a message *)

Lemma mode_update_backup settings result m0 m :
  extra_get "kaomoji_original" (mode_update settings result m0 m)
  = if truthy (extra_get "kaomoji_original" m)
    then extra_get "kaomoji_original" m else Some (mes m0).
Proof.
  unfold mode_update, display_update, content_update.
  destruct (String.eqb _ _); simpl.
  - rewrite extra_get_set_extra_key, decide_False by done.
    rewrite extra_get_backup_original, decide_True by done.
    by rewrite !extra_get_init_extra.
  - rewrite extra_get_set_mes, extra_get_backup_original, decide_True by done.
    by rewrite !extra_get_init_extra.
Qed.

Lemma display_update_spec d o m :
  let m' := display_update d o m in
  name m' = name m ∧ mes m' = mes m
  ∧ is_user m' = is_user m ∧ is_system m' = is_system m
  ∧ extra_get "display_text" m' = Some d
  ∧ (∀ k, k ≠ "display_text" → k ≠ "kaomoji_original"
          → extra_get k m' = extra_get k m).
Proof.
  unfold display_update; simpl.
  assert (∀ m1, mes (init_extra m1) = mes m1 ∧ name (init_extra m1) = name m1
    ∧ is_user (init_extra m1) = is_user m1
    ∧ is_system (init_extra m1) = is_system m1) as Hi
    by (intros m1; unfold init_extra; by destruct (extra m1)).
  assert (∀ m1, mes (backup_original o m1) = mes m1
    ∧ name (backup_original o m1) = name m1
    ∧ is_user (backup_original o m1) = is_user m1
    ∧ is_system (backup_original o m1) = is_system m1) as Hb
    by (intros m1; unfold backup_original; by destruct (truthy _)).
  destruct (Hi m) as (? & ? & ? & ?).
  destruct (Hb (init_extra m)) as (? & ? & ? & ?).
  repeat split; try congruence.
  - rewrite extra_get_set_extra_key. by rewrite decide_True.
  - intros k Hk1 Hk2. rewrite extra_get_set_extra_key, decide_False by done.
    rewrite extra_get_backup_original, decide_False by done.
    apply extra_get_init_extra.
Qed.

Lemma content_update_spec n o m :
  let m' := content_update n o m in
  name m' = name m ∧ mes m' = n
  ∧ is_user m' = is_user m ∧ is_system m' = is_system m
  ∧ (∀ k, k ≠ "kaomoji_original" → extra_get k m' = extra_get k m).
Proof.
  unfold content_update; simpl.
  assert (∀ m1, name (init_extra m1) = name m1
    ∧ is_user (init_extra m1) = is_user m1
    ∧ is_system (init_extra m1) = is_system m1) as Hi
    by (intros m1; unfold init_extra; by destruct (extra m1)).
  assert (∀ m1, name (backup_original o m1) = name m1
    ∧ is_user (backup_original o m1) = is_user m1
    ∧ is_system (backup_original o m1) = is_system m1) as Hb
    by (intros m1; unfold backup_original; by destruct (truthy _)).
  destruct (Hi m) as (? & ? & ?).
  destruct (Hb (init_extra m)) as (? & ? & ?).
  repeat split; try congruence.
  intros k Hk1. rewrite extra_get_set_mes.
  rewrite extra_get_backup_original, decide_False by done.
  apply extra_get_init_extra.
Qed.

(** *** processMessage: when nothing happens, and the two modes *)

(** C10: [processMessage] returns [false] and leaves the state (the
    message with it) as it was when the message is missing or a system
    message, when its kind (user or AI) is switched off in the settings,
    and when the replacement result has [hasReplacements] false or
    [successCount] 0.  Only in the remaining case does a call return
    [true] or change the chat; there the message goes through the update
    of the configured mode, and [true] is returned when the host calls
    return. *)
Theorem processMessage_skips_or_modifies w messageId :
  (skipped w messageId →
     processMessage host messageId w = (w, Returned false))
  ∧ (∀ w' c, processMessage host messageId w = (w', c) →
       c = Returned true ∨ chat w' ≠ chat w → ¬ skipped w messageId)
  ∧ (¬ skipped w messageId → is_Some (replacer w) →
       ∃ m r, chat w !! messageId = Some m ∧ replacer w = Some r
         ∧ let settings := extension_settings w in
           let result := replaceText r (mes m) (replace_options settings) in
           chat (fst (processMessage host messageId w))
           = alter (mode_update settings result m) messageId (chat w)
           ∧ (host_returns host →
                snd (processMessage host messageId w) = Returned true)).
Proof.
  split; [apply processMessage_skipped|]. split.
  - intros w' c Hrun Hc Hs. rewrite (processMessage_skipped _ _ Hs) in Hrun.
    simplify_eq. by destruct Hc.
  - intros Hs Hr.
    destruct (processMessage_modifies w messageId Hs Hr)
      as (m & r & t & c & Hm & Hr' & Heq & _ & _ & Hh).
    exists m, r. do 2 (split; [done|]). cbv zeta in *. rewrite Heq. simpl.
    split; [done|]. exact Hh.
Qed.


(** *** restoreMessage *)

Lemma truthy_Some s : truthy (Some s) = true ↔ s ≠ "".
Proof.
  simpl. rewrite negb_true_iff. split.
  - intros H ->. by rewrite String.eqb_refl in H.
  - intros H. by apply String.eqb_neq.
Qed.

Lemma restoreMessage_run w messageId m s :
  chat w !! messageId = Some m → extra_get "kaomoji_original" m = Some s →
  s ≠ "" →
  ∃ t c, restoreMessage host messageId w
         = (with_trace (trace w ++ t)
              (with_chat (alter (restore_update (extension_settings w) s)
                            messageId (chat w)) w), c)
       ∧ (c = Returned true ∨ ∃ e, c = Thrown e)
       ∧ (host_returns host → c = Returned true).
Proof.
  intros Hm Hs Hne. apply truthy_Some in Hne.
  unfold restoreMessage, restore_update. run. rewrite Hm. simpl. rewrite Hs.
  simpl in Hne. rewrite Hne. simpl.
  destruct (String.eqb (modifyMode (extension_settings w)) "display"); simpl;
    rewrite !list_alter_alter_eq; host_cases.
Qed.

Lemma restoreMessage_nothing w messageId :
  truthy (backup_of w messageId) = false →
  restoreMessage host messageId w = (w, Returned false).
Proof.
  unfold backup_of, restoreMessage. run.
  destruct (chat w !! messageId ≫= extra_get "kaomoji_original") as [s|];
    [|done].
  simpl. by intros ->.
Qed.

Lemma restore_update_spec settings s m :
  let m' := restore_update settings s m in
  name m' = name m ∧ is_user m' = is_user m ∧ is_system m' = is_system m
  ∧ extra_get "kaomoji_original" m' = None
  ∧ (∀ k, k ≠ "kaomoji_original" → k ≠ "display_text" →
          extra_get k m' = extra_get k m)
  ∧ (modifyMode settings = "display" →
       mes m' = mes m ∧ extra_get "display_text" m' = None)
  ∧ (modifyMode settings ≠ "display" →
       mes m' = s ∧ extra_get "display_text" m' = extra_get "display_text" m).
Proof.
  unfold restore_update.
  destruct (String.eqb (modifyMode settings) "display") eqn:Hmode; simpl.
  - apply String.eqb_eq in Hmode. repeat split; try done.
    + rewrite extra_get_delete_extra_key. by rewrite decide_True.
    + intros k Hk1 Hk2. by rewrite !extra_get_delete_extra_key, !decide_False.
    + rewrite !extra_get_delete_extra_key. rewrite decide_False by done.
      by rewrite decide_True.
  - apply String.eqb_neq in Hmode. repeat split; try done.
    + rewrite extra_get_delete_extra_key. by rewrite decide_True.
    + intros k Hk1 Hk2. by rewrite !extra_get_delete_extra_key, !decide_False.
    + rewrite !extra_get_delete_extra_key. by rewrite decide_False.
Qed.

(** C9: on a message whose backup [message.extra.kaomoji_original] is set
    (a non-empty text [s]), [restoreMessage] deletes the backup; in mode
    'content' it puts [s] back into [message.mes], in mode 'display' it
    deletes [message.extra.display_text]; it touches nothing else, and it
    returns [true] (an exception leaves it only when a host call throws).
    On a message without the backup it returns [false] and changes
    nothing.  After a [processMessage] that modified a message with text
    [mes m] and no backup, [restoreMessage] brings [message.mes] back to
    [mes m]. *)
Theorem restoreMessage_inverse w messageId :
  (∀ m s, chat w !! messageId = Some m →
     extra_get "kaomoji_original" m = Some s → s ≠ "" →
     ∃ w' c m',
       restoreMessage host messageId w = (w', c)
       ∧ chat w' !! messageId = Some m'
       ∧ (∀ j, j ≠ messageId → chat w' !! j = chat w !! j)
       ∧ extra_get "kaomoji_original" m' = None
       ∧ (∀ k, k ≠ "kaomoji_original" → k ≠ "display_text" →
               extra_get k m' = extra_get k m)
       ∧ (modifyMode (extension_settings w) = "content" →
            mes m' = s
            ∧ extra_get "display_text" m' = extra_get "display_text" m)
       ∧ (modifyMode (extension_settings w) = "display" →
            mes m' = mes m ∧ extra_get "display_text" m' = None)
       ∧ (c = Returned true ∨ ∃ e, c = Thrown e)
       ∧ (host_returns host → c = Returned true))
  ∧ (truthy (backup_of w messageId) = false →
       restoreMessage host messageId w = (w, Returned false))
  ∧ (∀ m w1, chat w !! messageId = Some m →
       truthy (extra_get "kaomoji_original" m) = false → mes m ≠ "" →
       processMessage host messageId w = (w1, Returned true) →
       ∃ m2, chat (fst (restoreMessage host messageId w1)) !! messageId = Some m2
         ∧ mes m2 = mes m
         ∧ extra_get "kaomoji_original" m2 = None
         ∧ (∀ k, k ≠ "kaomoji_original" → k ≠ "display_text" →
                 extra_get k m2 = extra_get k m)).
Proof.
  split; [|split].
  - intros m s Hm Hs Hne.
    destruct (restoreMessage_run w messageId m s Hm Hs Hne)
      as (t & c & Heq & Hc & Hh).
    destruct (restore_update_spec (extension_settings w) s m)
      as (_ & _ & _ & Hko & Hk & Hd & Hnd).
    eexists _, c, (restore_update (extension_settings w) s m).
    split; [exact Heq|]. simpl.
    split; [by rewrite list_lookup_alter_eq, Hm|].
    split; [intros j Hj; by apply list_lookup_alter_ne|].
    do 2 (split; [done|]).
    split; [intros Hmode; apply Hnd; by rewrite Hmode|].
    done.
  - apply restoreMessage_nothing.
  - intros m w1 Hm Hfalsy Hne Hrun.
    destruct (processMessage_true w messageId w1 Hrun)
      as (m0 & r & _ & Hm0 & Hr & Hw).
    assert (m0 = m) as -> by congruence. cbv zeta in Hw.
    set (settings := extension_settings w) in *.
    set (result := replaceText r (mes m) (replace_options settings)) in *.
    set (m1 := mode_update settings result m m).
    assert (chat w1 !! messageId = Some m1) as Hm1
      by (subst w1; simpl; by rewrite list_lookup_alter_eq, Hm).
    assert (extra_get "kaomoji_original" m1 = Some (mes m)) as Hb
      by (unfold m1; by rewrite mode_update_backup, Hfalsy).
    destruct (restoreMessage_run w1 messageId m1 (mes m) Hm1 Hb Hne)
      as (t & c & Heq & _).
    rewrite Heq. simpl. rewrite list_lookup_alter_eq, Hm1. simpl.
    eexists. split; [done|].
    destruct (restore_update_spec (extension_settings w1) (mes m) m1)
      as (_ & _ & _ & Hko & Hk & Hd & Hnd).
    assert (extension_settings w1 = settings) as Hset by (by subst w1).
    rewrite Hset in *.
    assert (mes m1 = (if String.eqb (modifyMode settings) "display"
                      then mes m else text result)
            ∧ ∀ k, k ≠ "kaomoji_original" → k ≠ "display_text" →
                   extra_get k m1 = extra_get k m) as [Hmes Hkeys].
    { unfold m1, mode_update.
      destruct (display_update_spec (text result) (mes m) m)
        as (_ & ? & _ & _ & _ & ?).
      destruct (content_update_spec (text result) (mes m) m)
        as (_ & ? & _ & _ & ?).
      destruct (String.eqb (modifyMode settings) "display"); split; auto. }
    split; [|split; [done|]].
    + destruct (String.eqb (modifyMode settings) "display") eqn:Hmode.
      * apply String.eqb_eq in Hmode. destruct (Hd Hmode) as [-> _]. done.
      * apply String.eqb_neq in Hmode. by destruct (Hnd Hmode) as [-> _].
    + intros k Hk1 Hk2. rewrite Hk by done. by apply Hkeys.
Qed.

(** *** The backup is written once *)

Lemma display_update_backup d o m :
  extra_get "kaomoji_original" (display_update d o m)
  = if truthy (extra_get "kaomoji_original" m)
    then extra_get "kaomoji_original" m else Some o.
Proof.
  unfold display_update; simpl.
  rewrite extra_get_set_extra_key, decide_False by done.
  rewrite extra_get_backup_original, decide_True by done.
  by rewrite !extra_get_init_extra.
Qed.

Lemma content_update_backup n o m :
  extra_get "kaomoji_original" (content_update n o m)
  = if truthy (extra_get "kaomoji_original" m)
    then extra_get "kaomoji_original" m else Some o.
Proof.
  unfold content_update; simpl.
  rewrite extra_get_set_mes, extra_get_backup_original, decide_True by done.
  by rewrite !extra_get_init_extra.
Qed.

Lemma backup_of_alter f w j messageId :
  backup_of (with_chat (alter f j (chat w)) w) messageId
  = if decide (j = messageId)
    then chat w !! messageId ≫= (extra_get "kaomoji_original" ∘ f)
    else backup_of w messageId.
Proof.
  unfold backup_of; simpl. case_decide as Hj.
  - subst j. rewrite list_lookup_alter_eq. by destruct (chat w !! messageId).
  - by rewrite list_lookup_alter_ne.
Qed.

Lemma modifyMessageDisplay_keeps_backup w j d o messageId :
  truthy (backup_of w messageId) = true →
  backup_of (fst (modifyMessageDisplay host j d o w)) messageId
  = backup_of w messageId.
Proof.
  intros Ht. destruct (chat w !! j) as [m|] eqn:Hm.
  - destruct (modifyMessageDisplay_run j d o w m Hm) as (t & c & -> & _).
    simpl. change (backup_of (with_trace ?t ?w) ?i) with (backup_of w i).
    rewrite backup_of_alter. case_decide; [subst j|done].
    unfold backup_of in *. rewrite Hm in *. simpl in *.
    by rewrite display_update_backup, Ht.
  - unfold modifyMessageDisplay. run. by rewrite Hm.
Qed.

Lemma modifyMessageContent_keeps_backup w j n o messageId :
  truthy (backup_of w messageId) = true →
  backup_of (fst (modifyMessageContent host j n o w)) messageId
  = backup_of w messageId.
Proof.
  intros Ht. destruct (chat w !! j) as [m|] eqn:Hm.
  - destruct (modifyMessageContent_run j n o w m Hm) as (t & c & -> & _).
    simpl. change (backup_of (with_trace ?t ?w) ?i) with (backup_of w i).
    rewrite backup_of_alter. case_decide; [subst j|done].
    unfold backup_of in *. rewrite Hm in *. simpl in *.
    by rewrite content_update_backup, Ht.
  - unfold modifyMessageContent. run. by rewrite Hm.
Qed.

(** One step of a session, seen from one message. *)
Lemma session_step_message s w messageId m :
  chat w !! messageId = Some m →
  chat (session_step host s w) !! messageId = Some m
  ∨ ∃ r, ¬ skipped w messageId ∧ replacer w = Some r
       ∧ chat (session_step host s w) !! messageId
         = Some (mode_update (extension_settings w)
                   (replaceText r (mes m) (replace_options (extension_settings w)))
                   m m).
Proof.
  intros Hm. destruct s as [j|settings]; simpl; [|by left].
  destruct (processMessage_cases w j)
    as [->|(m0 & r & t & c & Hs & Hm0 & Hr & Hrest)]; [by left|].
  cbv zeta in Hrest. destruct Hrest as (Heq & _). rewrite Heq. simpl.
  destruct (decide (j = messageId)) as [->|Hj].
  - right. exists r. assert (m0 = m) as -> by congruence.
    do 2 (split; [done|]). by rewrite list_lookup_alter_eq, Hm.
  - left. by rewrite list_lookup_alter_ne.
Qed.

Lemma session_cons s steps w :
  session host (s :: steps) w = session host steps (session_step host s w).
Proof. done. Qed.

Lemma session_keeps_backup steps w messageId :
  truthy (backup_of w messageId) = true →
  backup_of (session host steps w) messageId = backup_of w messageId.
Proof.
  revert w. induction steps as [|s steps IH]; intros w Ht; [done|].
  rewrite session_cons.
  assert (backup_of (session_step host s w) messageId = backup_of w messageId)
    as Hstep.
  { unfold backup_of in *.
    destruct (chat w !! messageId) as [m|] eqn:Hm; [|done].
    destruct (session_step_message s w messageId m Hm)
      as [->|(r & _ & _ & ->)]; [done|].
    simpl in *. by rewrite mode_update_backup, Ht. }
  rewrite IH; rewrite Hstep; done.
Qed.

Lemma session_first_backup steps w messageId m :
  nothing_replaced_in_empty_text →
  chat w !! messageId = Some m →
  truthy (extra_get "kaomoji_original" m) = false →
  backup_of (session host steps w) messageId = extra_get "kaomoji_original" m
  ∨ backup_of (session host steps w) messageId = Some (mes m).
Proof.
  intros Hempty Hm Hfalsy.
  assert (∀ steps w,
    (∃ m', chat w !! messageId = Some m'
       ∧ extra_get "kaomoji_original" m' = extra_get "kaomoji_original" m
       ∧ mes m' = mes m) →
    backup_of (session host steps w) messageId = extra_get "kaomoji_original" m
    ∨ backup_of (session host steps w) messageId = Some (mes m)) as Hinv.
  { clear w Hm steps.
    intros steps. induction steps as [|s steps IH]; intros w (m' & Hm' & Hb & Hmes).
    - left. unfold backup_of. simpl. by rewrite Hm'.
    - rewrite session_cons.
      destruct (session_step_message s w messageId m' Hm')
        as [Hsame|(r & Hns & Hr & Hmod)].
      + apply IH. eauto.
      + right.
        assert (truthy (Some (mes m)) = true) as Htruthy.
        { apply truthy_Some. intros Hnil. apply Hns. unfold skipped.
          rewrite Hm'. cbv zeta. do 3 right. exists r. split; [done|].
          rewrite Hmes, Hnil. apply Hempty. }
        rewrite session_keeps_backup; unfold backup_of; rewrite Hmod; simpl;
          rewrite mode_update_backup, Hb, Hfalsy, Hmes; done. }
  apply Hinv. eauto.
Qed.

(** C8: the backup [message.extra.kaomoji_original] is written once.  A
    call of [modifyMessageDisplay] or of [modifyMessageContent], on any
    message and with any arguments, leaves a backup that is set as it is;
    so does any session of [processMessage] calls and changes of the
    settings.  If the message has no backup at the start, the backup is,
    after any session, still missing or the text the message had at the
    start, that is, before its first modification. *)
Theorem kaomoji_original_write_once w messageId :
  (truthy (backup_of w messageId) = true →
     (∀ j a b,
        backup_of (fst (modifyMessageDisplay host j a b w)) messageId
        = backup_of w messageId
        ∧ backup_of (fst (modifyMessageContent host j a b w)) messageId
          = backup_of w messageId)
     ∧ ∀ steps, backup_of (session host steps w) messageId
                = backup_of w messageId)
  ∧ (nothing_replaced_in_empty_text →
     ∀ m steps, chat w !! messageId = Some m →
       truthy (extra_get "kaomoji_original" m) = false →
       backup_of (session host steps w) messageId
       = extra_get "kaomoji_original" m
       ∨ backup_of (session host steps w) messageId = Some (mes m)).
Proof.
  split.
  - intros Ht. split.
    + intros j a b. split.
      * by apply modifyMessageDisplay_keeps_backup.
      * by apply modifyMessageContent_keeps_backup.
    + intros steps. by apply session_keeps_backup.
  - intros Hempty m steps Hm Hfalsy. by apply session_first_backup.
Qed.

(** *** loadKaomojiData *)

Lemma load_from_fetch_fails url not_ok w :
  fetch_fails host url →
  ∃ e, load_from host url not_ok w
       = (with_trace (trace w ++ [Fetch url]) w, Thrown e).
Proof.
  unfold load_from, fetch. run.
  intros [[e ->]|(response & -> & Hok)]; [eauto|].
  rewrite Hok. simpl. eauto.
Qed.

Lemma load_from_trace url not_ok w :
  trace (fst (load_from host url not_ok w)) = trace w ++ [Fetch url].
Proof.
  unfold load_from, fetch, response_text, manager_loadFromJSON,
    replacer_loadKaomojis. run.
  destruct (fetch_result host url) as [response|e]; [|done].
  destruct (ok response); [|done]. simpl.
  destruct (body response) as [jsonText|e]; [|done].
  destruct (loadFromJSON jsonText (manager w)) as [m [[]|e]]; [|done]. simpl.
  destruct (replacer w) as [r|]; [|done].
  by destruct (loadKaomojis (getAllKaomojis m) r) as [r' [[]|e]].
Qed.

Lemma load_from_returns url not_ok w w' :
  load_from host url not_ok w = (w', Returned tt) → loaded_from host url w w'.
Proof.
  unfold load_from, fetch, response_text, manager_loadFromJSON,
    replacer_loadKaomojis, loaded_from. run.
  destruct (fetch_result host url) as [response|e]; [|done].
  destruct (ok response) eqn:Hok; [|done]. simpl.
  destruct (body response) as [jsonText|e] eqn:Hbody; [|done].
  destruct (loadFromJSON jsonText (manager w)) as [m [[]|e]] eqn:Hload; [|done].
  simpl. destruct (replacer w) as [r|] eqn:Hr; [|done].
  destruct (loadKaomojis (getAllKaomojis m) r) as [r' [[]|e]] eqn:Hk; [|done].
  intros [= <-]. simpl. exists response, jsonText, m, r, r'. eauto 10.
Qed.

Lemma loadKaomojiData_run w :
  let w0 := with_manager new_KaomojiDataManager w in
  loadKaomojiData host w
  = match load_from host user_data_url user_not_ok w0 with
    | (w1, Returned a) => (w1, Returned a)
    | (w1, Thrown _) =>
      match load_from host template_data_url template_not_ok w1 with
      | (w2, Returned a) => (w2, Returned a)
      | (w2, Thrown _) => (w2, Thrown (Error "No kaomoji data available"))
      end
    end.
Proof. done. Qed.

(** C3: [loadKaomojiData] fetches the user dataset first.  If that fetch
    fails or answers with a response that is not ok, the template dataset
    is fetched next.  If both attempts fail, whatever the failure, the
    function throws the error 'No kaomoji data available'; in particular
    when both fetches fail.  If the first attempt succeeds, or fails and
    the second succeeds, the function returns, and the entries parsed from
    the text of that response are loaded into the replacer. *)
Theorem loadKaomojiData_fallback w :
  let w0 := with_manager new_KaomojiDataManager w in
  (fetch_fails host user_data_url →
     trace (fst (loadKaomojiData host w))
     = trace w ++ [Fetch user_data_url; Fetch template_data_url])
  ∧ (∀ w1 e1 w2 e2,
       load_from host user_data_url user_not_ok w0 = (w1, Thrown e1) →
       load_from host template_data_url template_not_ok w1 = (w2, Thrown e2) →
       loadKaomojiData host w
       = (w2, Thrown (Error "No kaomoji data available")))
  ∧ (fetch_fails host user_data_url → fetch_fails host template_data_url →
       snd (loadKaomojiData host w)
       = Thrown (Error "No kaomoji data available"))
  ∧ (∀ w', load_from host user_data_url user_not_ok w0 = (w', Returned tt) →
       loadKaomojiData host w = (w', Returned tt)
       ∧ loaded_from host user_data_url w0 w')
  ∧ (∀ w1 e1 w',
       load_from host user_data_url user_not_ok w0 = (w1, Thrown e1) →
       load_from host template_data_url template_not_ok w1 = (w', Returned tt) →
       loadKaomojiData host w = (w', Returned tt)
       ∧ loaded_from host template_data_url w1 w').
Proof.
  intros w0. rewrite loadKaomojiData_run. fold w0.
  split; [|split; [|split; [|split]]].
  - intros Hf.
    destruct (load_from_fetch_fails _ user_not_ok w0 Hf) as [e ->].
    pose proof (load_from_trace template_data_url template_not_ok
                  (with_trace (trace w0 ++ [Fetch user_data_url]) w0)) as Ht.
    destruct (load_from host template_data_url _ _) as [w2 [[]|e2]];
      simpl in *; rewrite Ht, <-app_assoc; done.
  - intros w1 e1 w2 e2 -> ->. done.
  - intros Hu Ht.
    destruct (load_from_fetch_fails _ user_not_ok w0 Hu) as [e ->].
    destruct (load_from_fetch_fails _ template_not_ok
                (with_trace (trace w0 ++ [Fetch user_data_url]) w0) Ht)
      as [e' ->].
    done.
  - intros w' Hrun. rewrite Hrun. split; [done|].
    by apply load_from_returns in Hrun.
  - intros w1 e1 w' Hrun1 Hrun2. rewrite Hrun1, Hrun2. split; [done|].
    by apply load_from_returns in Hrun2.
Qed.

End WithLib.
End ExtensionProps.

(** ** Properties of the core *)

Module CoreProps.
Import Core.
Local Open Scope nat_scope.

(** *** The ranking order *)

#[export] Instance outranks_refl : Reflexive outranks.
Proof. intros c. right. split; [done|]. right. split; [done|]. lia. Qed.

#[export] Instance outranks_trans : Transitive outranks.
Proof.
  intros c1 c2 c3 [K12|(K12 & H12)] [K23|(K23 & H23)]; [left; lia..|].
  right. split; [lia|].
  destruct H12 as [H12|(E12 & H12)], H23 as [H23|(E23 & H23)].
  - left. by apply Qclt_trans with (score c2).
  - left. by rewrite <-E23.
  - left. by rewrite E12.
  - right. split; [congruence|lia].
Qed.

#[export] Instance outranks_total : Total outranks.
Proof.
  intros c1 c2.
  destruct (lt_eq_lt_dec (kind_rank (matchKind c1)) (kind_rank (matchKind c2)))
    as [[?|Hk]|?]; [left; by left| |right; by left].
  destruct (Qc_dec (score c1) (score c2)) as [[Hlt|Hgt]|Heq].
  - right. right. split; [done|]. by left.
  - left. right. split; [done|]. by left.
  - destruct (le_ge_dec (entryRef c1) (entryRef c2)).
    + left. right. split; [done|]. right. done.
    + right. right. split; [done|]. right. split; [done|lia].
Qed.

(** *** Deduplication *)

Lemma dedupe_elem seen l c :
  c ∈ dedupe seen l → c ∈ l ∧ entryRef c ∉ seen.
Proof.
  revert seen. induction l as [|x l IH]; intros seen Hc; simpl in Hc.
  - by apply elem_of_nil in Hc.
  - case_decide as Hx.
    + destruct (IH _ Hc) as [Hl Hn]. split; [by right|done].
    + apply elem_of_cons in Hc as [->|Hc]; [split; [by left|done]|].
      destruct (IH _ Hc) as [Hl Hn]. split; [by right|].
      intros Hin. apply Hn, elem_of_union. by right.
Qed.

Lemma dedupe_NoDup seen l : NoDup (entryRef <$> dedupe seen l).
Proof.
  revert seen. induction l as [|x l IH]; intros seen; simpl; [constructor|].
  case_decide; [apply IH|]. rewrite fmap_cons. constructor; [|apply IH].
  intros Hin. apply list_elem_of_fmap in Hin as (c & Hc & Hin).
  apply dedupe_elem in Hin as [_ Hn].
  apply Hn, elem_of_union. left. by apply elem_of_singleton.
Qed.

Lemma dedupe_sorted seen l :
  StronglySorted outranks l → StronglySorted outranks (dedupe seen l).
Proof.
  revert seen. induction l as [|x l IH]; intros seen Hs; simpl; [constructor|].
  apply StronglySorted_inv in Hs as [Hl Hx].
  case_decide; [by apply IH|]. constructor; [by apply IH|].
  apply Forall_forall. intros c [Hc _]%dedupe_elem.
  rewrite Forall_forall in Hx. by apply Hx.
Qed.

Lemma dedupe_best seen l c :
  StronglySorted outranks l → c ∈ l → entryRef c ∉ seen →
  ∃ c', c' ∈ dedupe seen l ∧ entryRef c' = entryRef c ∧ outranks c' c.
Proof.
  revert seen. induction l as [|x l IH]; intros seen Hs Hc Hn; simpl.
  - by apply elem_of_nil in Hc.
  - apply StronglySorted_inv in Hs as [Hl Hx]. rewrite Forall_forall in Hx.
    apply elem_of_cons in Hc as [->|Hc].
    + rewrite decide_False by done. exists x. split; [by left|done].
    + case_decide as Hseen; [by apply IH|].
      destruct (decide (entryRef x = entryRef c)) as [Heq|Hne].
      * exists x. split; [by left|]. split; [done|]. by apply Hx.
      * destruct (IH ({[entryRef x]} ∪ seen) Hl Hc) as (c' & ? & ? & ?).
        { intros Hin. apply elem_of_union in Hin as [Hin|Hin]; [|done].
          apply elem_of_singleton in Hin. congruence. }
        exists c'. split; [by right|done].
Qed.

Lemma StronglySorted_lookup {A} (R : relation A) l i j x y :
  StronglySorted R l → (i < j)%nat → l !! i = Some x → l !! j = Some y → R x y.
Proof.
  intros Hs. revert i j. induction Hs as [|a l Hs IH Ha]; intros i j Hij Hi Hj.
  - by rewrite lookup_nil in Hi.
  - destruct j as [|j]; [lia|]. destruct i as [|i]; simpl in *.
    + simplify_eq. rewrite Forall_forall in Ha. apply Ha.
      by eapply list_elem_of_lookup_2.
    + eapply IH; [|done..]. lia.
Qed.

(** *** Strings: prefixes, suffixes and substrings *)

Lemma append_cons c a b : String c a +:+ b = String c (a +:+ b).
Proof. done. Qed.

Lemma append_nil_l b : EmptyString +:+ b = b.
Proof. done. Qed.

Lemma append_assoc a b c : (a +:+ b) +:+ c = a +:+ b +:+ c.
Proof. induction a as [|x a IH]; [done|]. by rewrite !append_cons, IH. Qed.

Lemma take_drop_string n s : substring 0 n s +:+ drop_string n s = s.
Proof.
  revert s. induction n as [|n IH]; intros [|c s]; simpl; try done.
  by rewrite append_cons, IH.
Qed.

Lemma length_app_string a b :
  String.length (a +:+ b) = String.length a + String.length b.
Proof.
  induction a as [|c a IH]; [done|]. rewrite append_cons. simpl. by rewrite IH.
Qed.

Lemma length_take_string n s :
  String.length (substring 0 n s) = n `min` String.length s.
Proof.
  revert s. induction n as [|n IH]; intros [|c s]; simpl; try done.
  by rewrite IH.
Qed.

Lemma length_drop_string n s :
  String.length (drop_string n s) = String.length s - n.
Proof.
  revert s. induction n as [|n IH]; intros [|c s]; simpl; try done.
Qed.

Lemma substring_drop_string n m s :
  substring n m s = substring 0 m (drop_string n s).
Proof.
  revert s. induction n as [|n IH]; intros s; [done|].
  destruct s as [|c s]; simpl; [by destruct m|]. apply IH.
Qed.

Lemma drop_drop_string n m s :
  drop_string n (drop_string m s) = drop_string (m + n) s.
Proof.
  revert s. induction m as [|m IH]; intros s; [done|].
  destruct s as [|c s]; simpl; [by destruct n|]. apply IH.
Qed.

Lemma take_take_string n m s :
  substring 0 n (substring 0 m s) = substring 0 (n `min` m) s.
Proof.
  revert m s. induction n as [|n IH]; intros [|m] [|c s]; simpl; try done.
  by rewrite IH.
Qed.

Lemma drop_take_string k n s :
  drop_string k (substring 0 n s) = substring 0 (n - k) (drop_string k s).
Proof.
  revert n s. induction k as [|k IH]; intros n s; simpl.
  - by rewrite Nat.sub_0_r.
  - destruct n as [|n], s as [|c s]; simpl; try done.
    + by destruct (drop_string k s).
    + by destruct (n - k).
Qed.

Lemma substring_take_string c n m s :
  c + n ≤ m → substring c n (substring 0 m s) = substring c n s.
Proof.
  intros Hle. rewrite (substring_drop_string c n (substring 0 m s)).
  rewrite (substring_drop_string c n s), drop_take_string, take_take_string.
  f_equal. lia.
Qed.

Lemma substring_shift k c n s :
  substring (k + c) n s = substring c n (drop_string k s).
Proof.
  rewrite (substring_drop_string (k + c)), (substring_drop_string c).
  by rewrite drop_drop_string.
Qed.


Lemma prefix_drop_string p s :
  String.prefix p s = true → s = p +:+ drop_string (String.length p) s.
Proof.
  revert s. induction p as [|a p IH]; intros s; [done|].
  destruct s as [|b s]; simpl; [done|].
  destruct (ascii_dec a b) as [->|]; [|done]. intros Hp.
  rewrite append_cons. f_equal. by apply IH.
Qed.


Lemma prefix_take_string p n s :
  String.prefix p (substring 0 n s) = true → String.prefix p s = true.
Proof.
  revert n s. induction p as [|a p IH]; intros n s; [by destruct s|].
  destruct n as [|n], s as [|b s]; simpl; try done.
  destruct (ascii_dec a b); [apply IH|done].
Qed.

Lemma prefix_take_string_ge p n s :
  String.length p ≤ n → String.prefix p s = true →
  String.prefix p (substring 0 n s) = true.
Proof.
  revert n s. induction p as [|a p IH]; intros n s Hn; [by destruct (substring 0 n s)|].
  destruct n as [|n]; [simpl in Hn; lia|].
  destruct s as [|b s]; simpl; [done|].
  destruct (ascii_dec a b); [apply IH; simpl in Hn; lia|done].
Qed.

(** *** The scanner *)

Lemma read_keyword_Some s kw :
  read_keyword s = Some kw →
  substring 0 (S (String.length kw)) s = kw +:+ "]"
  ∧ S (String.length kw) ≤ String.length s.
Proof.
  revert kw. induction s as [|c s IH]; intros kw; simpl; [done|].
  destruct (Ascii.eqb c "]") eqn:Hc.
  - intros [= <-]. apply Ascii.eqb_eq in Hc as ->. simpl.
    split; [by destruct s|lia].
  - destruct (read_keyword s) as [kw'|]; simpl; [|done].
    intros [= <-]. destruct (IH kw' eq_refl) as [Ht Hl]. simpl in *.
    rewrite Ht. split; [done|lia].
Qed.

Lemma read_keyword_take_string n s kw :
  read_keyword (substring 0 n s) = Some kw → read_keyword s = Some kw.
Proof.
  revert n kw. induction s as [|c s IH]; intros n kw.
  - by destruct n.
  - destruct n as [|n]; simpl; [done|].
    destruct (Ascii.eqb c "]"); [done|].
    destruct (read_keyword (substring 0 n s)) as [kw'|] eqn:Hr; simpl; [|done].
    intros [= <-]. by rewrite (IH n kw' Hr).
Qed.

Lemma read_keyword_take_string_ge n s kw :
  read_keyword s = Some kw → S (String.length kw) ≤ n →
  read_keyword (substring 0 n s) = Some kw.
Proof.
  revert n kw. induction s as [|c s IH]; intros n kw; simpl; [done|].
  destruct n as [|n]; [lia|]. simpl.
  destruct (Ascii.eqb c "]"); [done|].
  destruct (read_keyword s) as [kw'|]; simpl; [|done].
  intros [= <-] Hn. simpl in Hn. rewrite (IH n kw'); [done|done|lia].
Qed.

Lemma substring_0_app a b n :
  substring 0 (String.length a + n) (a +:+ b) = a +:+ substring 0 n b.
Proof.
  induction a as [|c a IH]; [done|]. rewrite !append_cons. simpl. by rewrite IH.
Qed.

Lemma token_at_Some pos s t :
  token_at pos s = Some t →
  startOffset t = pos
  ∧ endOffset t = pos + token_length (rawKeyword t)
  ∧ originalText t = token_open +:+ rawKeyword t +:+ "]"
  ∧ substring 0 (token_length (rawKeyword t)) s = originalText t
  ∧ token_length (rawKeyword t) ≤ String.length s.
Proof.
  unfold token_at.
  destruct (String.prefix token_open s) eqn:Hp; [|done].
  destruct (read_keyword _) as [kw|] eqn:Hk; [|done].
  intros [= <-]. simpl. do 2 (split; [done|]).
  apply prefix_drop_string in Hp. apply read_keyword_Some in Hk as [Hk Hl].
  rewrite length_drop_string in Hl.
  assert (substring 0 (token_length kw) s = token_open +:+ kw +:+ "]") as Hs.
  { rewrite Hp at 1. unfold token_length. rewrite <-Nat.add_assoc.
    rewrite substring_0_app. by rewrite Nat.add_1_r, Hk. }
  rewrite Hs. do 2 (split; [done|]). unfold token_length. lia.
Qed.

Lemma token_at_take n pos s t :
  token_at pos s = Some t → token_length (rawKeyword t) ≤ n →
  token_at pos (substring 0 n s) = Some t.
Proof.
  unfold token_at.
  destruct (String.prefix token_open s) eqn:Hp; [|done].
  destruct (read_keyword _) as [kw|] eqn:Hk; [|done].
  intros [= <-]. cbn [rawKeyword]. intros Hn.
  assert (String.length token_open ≤ n ∧ S (String.length kw) ≤ n - String.length token_open)
    as [Hn1 Hn2] by (unfold token_length in Hn; lia).
  rewrite prefix_take_string_ge by done.
  rewrite drop_take_string.
  rewrite (read_keyword_take_string_ge _ _ kw) by done.
  do 2 f_equal. rewrite take_take_string. f_equal. lia.
Qed.

Lemma token_at_take_None n pos s :
  token_at pos s = None → token_at pos (substring 0 n s) = None.
Proof.
  unfold token_at.
  destruct (String.prefix token_open (substring 0 n s)) eqn:Hp; [|done].
  rewrite (prefix_take_string _ _ _ Hp). rewrite drop_take_string.
  destruct (read_keyword (substring 0 _ _)) as [kw|] eqn:Hk; [|done].
  by rewrite (read_keyword_take_string _ _ _ Hk).
Qed.

Lemma token_at_shift pos s : token_at pos s = shift_token pos <$> token_at 0 s.
Proof.
  unfold token_at. destruct (String.prefix token_open s); [|done].
  destruct (read_keyword _); [|done]. simpl. unfold shift_token. simpl.
  do 2 f_equal. lia.
Qed.

Lemma shift_token_add j k t : shift_token j (shift_token k t) = shift_token (j + k) t.
Proof. unfold shift_token. simpl. f_equal; lia. Qed.

Lemma scan_from_nil skip pos : scan_from skip pos EmptyString = [].
Proof. done. Qed.

Lemma scan_from_skip skip pos c s :
  scan_from (S skip) pos (String c s) = scan_from skip (S pos) s.
Proof. done. Qed.

Lemma scan_from_head pos c s :
  scan_from 0 pos (String c s)
  = match token_at pos (String c s) with
    | Some t => t :: scan_from (token_length (rawKeyword t) - 1) (S pos) s
    | None => scan_from 0 (S pos) s
    end.
Proof. done. Qed.

Lemma scan_from_drop skip pos s :
  scan_from skip pos s = scan_from 0 (pos + skip) (drop_string skip s).
Proof.
  revert pos s. induction skip as [|k IH]; intros pos s.
  - by rewrite Nat.add_0_r.
  - destruct s as [|c s]; [done|]. rewrite scan_from_skip, IH. simpl.
    f_equal. lia.
Qed.

Lemma scan_from_shift skip pos s :
  scan_from skip pos s = shift_token pos <$> scan_from skip 0 s.
Proof.
  revert skip pos. induction s as [|c s IH]; intros skip pos; [done|].
  destruct skip as [|k].
  - rewrite !scan_from_head, token_at_shift.
    destruct (token_at 0 (String c s)) as [t|]; simpl.
    + rewrite (IH _ (S pos)), (IH _ 1). rewrite <-list_fmap_compose.
      f_equal. apply list_fmap_ext. intros _ t' _. simpl.
      rewrite shift_token_add. f_equal. lia.
    + rewrite (IH _ (S pos)), (IH _ 1). rewrite <-list_fmap_compose.
      apply list_fmap_ext. intros _ t' _. simpl.
      rewrite shift_token_add. f_equal. lia.
  - rewrite !scan_from_skip.
    rewrite (IH _ (S pos)), (IH _ 1). rewrite <-list_fmap_compose.
    apply list_fmap_ext. intros _ t' _. simpl.
    rewrite shift_token_add. f_equal. lia.
Qed.

(** Where a token of a scan lies, and what the scan finds before and
    after it. *)
Lemma scan_from_split s skip pos ts1 t ts2 :
  scan_from skip pos s = ts1 ++ t :: ts2 →
  ∃ i, startOffset t = pos + i ∧ skip ≤ i
     ∧ endOffset t = startOffset t + token_length (rawKeyword t)
     ∧ i + token_length (rawKeyword t) ≤ String.length s
     ∧ originalText t = token_open +:+ rawKeyword t +:+ "]"
     ∧ substring i (token_length (rawKeyword t)) s = originalText t
     ∧ scan_from skip pos (substring 0 i s) = ts1
     ∧ scan_from 0 (endOffset t) (drop_string (i + token_length (rawKeyword t)) s)
       = ts2.
Proof.
  revert skip pos ts1. induction s as [|c s IH]; intros skip pos ts1 Hscan.
  { rewrite scan_from_nil in Hscan. by destruct ts1. }
  destruct skip as [|k].
  - rewrite scan_from_head in Hscan.
    destruct (token_at pos (String c s)) as [t0|] eqn:Hat.
    + destruct (token_at_Some _ _ _ Hat) as (Hst & Hen & Hot & Hsub & Hlen).
      assert (1 ≤ token_length (rawKeyword t0)) as Hpos
        by (unfold token_length; lia).
      set (rest := scan_from (token_length (rawKeyword t0) - 1) (S pos) s) in *.
      destruct ts1 as [|t1 ts1]; simpl in Hscan;
        injection Hscan as Ht Hrest; subst t0.
      * exists 0. rewrite Nat.add_0_r. do 2 (split; [done || lia|]).
        split; [lia|]. split; [exact Hlen|]. do 2 (split; [done|]).
        split; [done|]. rewrite <-Hrest. unfold rest.
        rewrite (scan_from_drop (token_length (rawKeyword t) - 1)).
        rewrite Hen.
        destruct (token_length (rawKeyword t)) as [|n]; [lia|].
        replace (S n - 1) with n by lia.
        replace (pos + S n) with (S pos + n) by lia. done.
      * unfold rest in Hrest.
        destruct (IH _ _ _ Hrest) as (i & Hi & Hk & He & Hl & Ho & Hs & H1 & H2).
        exists (S i). do 2 (split; [lia|]). split; [done|].
        split; [simpl; lia|]. split; [done|]. split; [done|].
        split; [|done].
        change (substring 0 (S i) (String c s))
          with (String c (substring 0 i s)).
        rewrite scan_from_head.
        change (String c (substring 0 i s))
          with (substring 0 (S i) (String c s)).
        rewrite (token_at_take _ _ _ _ Hat) by lia. by rewrite H1.
    + destruct (IH _ _ _ Hscan) as (i & Hi & Hk & He & Hl & Ho & Hs & H1 & H2).
      exists (S i). do 2 (split; [lia|]). split; [done|].
      split; [simpl; lia|]. split; [done|]. split; [done|].
      split; [|done].
      change (substring 0 (S i) (String c s))
        with (String c (substring 0 i s)).
      rewrite scan_from_head.
      change (String c (substring 0 i s))
        with (substring 0 (S i) (String c s)).
      by rewrite (token_at_take_None _ _ _ Hat).
  - rewrite scan_from_skip in Hscan.
    destruct (IH _ _ _ Hscan) as (i & Hi & Hk & He & Hl & Ho & Hs & H1 & H2).
    exists (S i). do 2 (split; [lia|]). split; [done|].
    split; [simpl; lia|]. split; [done|]. split; [done|].
    split; [|done].
    change (substring 0 (S i) (String c s))
      with (String c (substring 0 i s)).
    by rewrite scan_from_skip.
Qed.

Lemma scan_from_bounds skip pos s t :
  t ∈ scan_from skip pos s →
  pos + skip ≤ startOffset t
  ∧ endOffset t = startOffset t + token_length (rawKeyword t)
  ∧ endOffset t ≤ pos + String.length s.
Proof.
  intros (ts1 & ts2 & Hsplit)%list_elem_of_split.
  destruct (scan_from_split _ _ _ _ _ _ Hsplit) as (i & ? & ? & ? & ? & _).
  lia.
Qed.

(** *** The single pass over the spans *)

Lemma apply_replacements_app txt c sp1 s e r sp2 :
  c ≤ s → Forall (λ sp, sp.1.1 ≤ s ∧ sp.1.2 ≤ s) sp1 →
  apply_replacements txt c (sp1 ++ (s, e, r) :: sp2)
  = apply_replacements (substring 0 s txt) c sp1
    +:+ r +:+ apply_replacements txt e sp2.
Proof.
  revert c. induction sp1 as [|[[s1 e1] r1] sp1 IH]; intros c Hc Hall; simpl.
  - by rewrite drop_take_string, <-substring_drop_string.
  - apply Forall_cons in Hall as [[Hs1 He1] Hall]. simpl in *.
    rewrite IH by done. rewrite substring_take_string by lia.
    by rewrite !append_assoc.
Qed.

Lemma apply_replacements_shift txt k c sp :
  apply_replacements txt (k + c) (shift_span k <$> sp)
  = apply_replacements (drop_string k txt) c sp.
Proof.
  revert c. induction sp as [|[[s e] r] sp IH]; intros c; simpl.
  - by rewrite drop_drop_string.
  - rewrite IH. replace (k + s - (k + c)) with (s - c) by lia.
    by rewrite substring_shift.
Qed.

Section WithMatching.
Context `{Mt : Matching}.

Lemma search_unfold store query o :
  search store query o = dedupe ∅ (merge_sort outranks (staged store query o)).
Proof. done. Qed.


Lemma staged_refers store query o c :
  c ∈ staged store query o → store !! entryRef c = Some (entry c).
Proof.
  unfold staged, exact_stage, fuzzy_stage, lookupExact.
  intros [Hc|Hc]%elem_of_app.
  - destruct (list_find _ store) as [[i e]|] eqn:Hf; [|by apply elem_of_nil in Hc].
    apply list_elem_of_singleton in Hc as ->. simpl.
    by apply list_find_Some in Hf as (? & _).
  - apply list_elem_of_filter in Hc as [_ Hc].
    apply list_elem_of_lookup in Hc as [i Hi].
    rewrite list_lookup_imap in Hi.
    destruct (store !! i) as [e|] eqn:He; simplify_eq/=. done.
Qed.

Lemma staged_nil_of_unmatched store query o :
  unmatched store query o → staged store query o = [].
Proof.
  intros [Hex Hfz]. unfold staged, exact_stage. cbv zeta. rewrite Hex. simpl.
  unfold fuzzy_stage.
  destruct (filter _ _) as [|c l] eqn:Hf; [done|exfalso].
  assert (c ∈ c :: l) as Hc by left. rewrite <-Hf in Hc.
  apply list_elem_of_filter in Hc as [Hth Hc].
  apply list_elem_of_lookup in Hc as [i Hi]. rewrite list_lookup_imap in Hi.
  destruct (store !! i) as [e|] eqn:He; simplify_eq/=.
  apply (Hfz e); [|done]. by eapply list_elem_of_lookup_2.
Qed.

(** *** The two stages of search *)

Lemma qmax_le a b c : (a ≤ c)%Qc → (b ≤ c)%Qc → (qmax a b ≤ c)%Qc.
Proof. intros Ha Hb. unfold qmax. by case_decide. Qed.

Lemma fuzzy_score_le q e :
  (∀ q s, (similarity q s ≤ 1)%Qc) → (fuzzy_score q e ≤ 1)%Qc.
Proof.
  intros Hle. unfold fuzzy_score.
  induction (aliases e ++ tags e) as [|x l IH]; simpl; [apply Hle|].
  apply qmax_le; [apply Hle|apply IH].
Qed.

(** What the two stages emit: an exact candidate of score 1, or a fuzzy
    candidate with the score of its entry. *)
Lemma staged_score_kind store query o c :
  (∀ q s, (similarity q s ≤ 1)%Qc) →
  c ∈ staged store query o →
  (score c ≤ 1)%Qc
  ∧ (matchKind c = exact ∧ score c = 1%Qc ∨ matchKind c = fuzzy).
Proof.
  intros Hle. unfold staged, exact_stage, fuzzy_stage.
  intros [Hc|Hc]%elem_of_app.
  - destruct (lookupExact store (normalize query)) as [[i e]|];
      [|by apply elem_of_nil in Hc].
    apply list_elem_of_singleton in Hc as ->. simpl.
    split; [apply Qcle_refl|by left].
  - apply list_elem_of_filter in Hc as [_ Hc].
    apply list_elem_of_lookup in Hc as [i Hi].
    rewrite list_lookup_imap in Hi.
    destruct (store !! i) as [e|] eqn:He; simplify_eq/=.
    split; [by apply fuzzy_score_le|by right].
Qed.

Lemma outranks_staged store query o c1 c2 :
  (∀ q s, (similarity q s ≤ 1)%Qc) →
  c1 ∈ staged store query o → c2 ∈ staged store query o →
  outranks c1 c2 →
  (score c2 ≤ score c1)%Qc
  ∧ kind_rank (matchKind c1) ≤ kind_rank (matchKind c2).
Proof.
  intros Hle H1 H2 [Hk|(Hk & Hs)].
  - split; [|lia].
    destruct (staged_score_kind _ _ _ _ Hle H1) as (_ & [[_ ->]|Hf]).
    + by apply (staged_score_kind _ _ _ _ Hle H2).
    + rewrite Hf in Hk. destruct (matchKind c2); simpl in Hk; lia.
  - split; [|lia].
    destruct Hs as [?|[-> _]]; [by apply Qclt_le_weak|apply Qcle_refl].
Qed.

Lemma fuzzy_stage_kind store th q c :
  c ∈ fuzzy_stage store th q → matchKind c = fuzzy.
Proof.
  unfold fuzzy_stage. intros [_ Hc]%list_elem_of_filter.
  apply list_elem_of_lookup in Hc as [i Hi]. rewrite list_lookup_imap in Hi.
  by destruct (store !! i) as [e|]; simplify_eq/=.
Qed.

(** A query that equals a keyword or an alias has the candidate of that
    entry at the head of the result of [search], whatever the fuzzy
    scores (section 4.2, step 2). *)
Lemma search_exact_first store query o i e :
  lookupExact store (normalize query) = Some (i, e) →
  head (search store query o)
  = Some {| entryRef := i; entry := e; score := 1%Qc; matchKind := exact |}.
Proof.
  intros Hex. rewrite search_unfold.
  set (c0 := {| entryRef := i; entry := e; score := 1%Qc; matchKind := exact |}).
  assert (staged store query o
          = c0 :: fuzzy_stage store (threshold o) (normalize query)) as Hst
    by (unfold staged, exact_stage; cbv zeta; by rewrite Hex).
  pose proof (StronglySorted_merge_sort outranks (staged store query o))
    as Hsorted.
  pose proof (merge_sort_Permutation outranks (staged store query o)) as Hperm.
  destruct (merge_sort outranks (staged store query o)) as [|h l] eqn:Hranked.
  - rewrite Hst in Hperm. by apply Permutation_nil_cons in Hperm.
  - assert (h = c0) as ->.
    { assert (h ∈ staged store query o) as Hh by (rewrite <-Hperm; left).
      rewrite Hst in Hh. apply elem_of_cons in Hh as [?|Hf]; [done|].
      apply fuzzy_stage_kind in Hf.
      assert (c0 ∈ h :: l) as Hc0 by (rewrite Hperm, Hst; left).
      apply elem_of_cons in Hc0 as [?|Hc0]; [done|].
      apply StronglySorted_inv in Hsorted as [_ Hall].
      rewrite Forall_forall in Hall. specialize (Hall c0 Hc0).
      destruct Hall as [Hk|[Hk _]]; rewrite Hf in Hk; simpl in Hk; lia. }
    simpl. by rewrite decide_False by apply not_elem_of_empty.
Qed.

(** *** search *)

(** C5, as amended: with a similarity measure that stays within 0..1,
    the candidates [search] returns for a query are sorted by descending
    score; a candidate of a better match kind precedes one of a worse
    kind, so the exact candidate comes first, also before a fuzzy
    candidate of score 1 of an earlier entry; two candidates of one kind
    and one score are in the order of their entries in the store.  Every
    entry appears at most once, every candidate refers to its entry of the
    store and comes from the exact or the fuzzy stage, and for every
    candidate of a stage the result holds a candidate of that entry whose
    score and match kind are at least as good. *)
Theorem search_sorted_dedup store query o :
  (∀ q s, (similarity q s ≤ 1)%Qc) →
  let found := search store query o in
  (∀ i j ci cj, (i < j)%nat → found !! i = Some ci → found !! j = Some cj →
     (score cj ≤ score ci)%Qc
     ∧ (kind_rank (matchKind ci) ≤ kind_rank (matchKind cj))%nat
     ∧ (score ci = score cj → matchKind ci = matchKind cj →
          (entryRef ci < entryRef cj)%nat))
  ∧ NoDup (entryRef <$> found)
  ∧ (∀ c, c ∈ found →
       c ∈ staged store query o ∧ store !! entryRef c = Some (entry c))
  ∧ (∀ c, c ∈ staged store query o →
       ∃ c', c' ∈ found ∧ entryRef c' = entryRef c
         ∧ (score c ≤ score c')%Qc
         ∧ (kind_rank (matchKind c') ≤ kind_rank (matchKind c))%nat).
Proof.
  intros Hle found. unfold found. rewrite search_unfold.
  set (ranked := merge_sort outranks (staged store query o)).
  assert (StronglySorted outranks ranked) as Hranked
    by apply (StronglySorted_merge_sort outranks).
  pose proof (dedupe_sorted ∅ ranked Hranked) as Hsorted.
  pose proof (dedupe_NoDup ∅ ranked) as Hnodup.
  assert (∀ c, c ∈ dedupe ∅ ranked → c ∈ staged store query o) as Hstaged.
  { intros c Hc. apply dedupe_elem in Hc as [Hc _]. unfold ranked in Hc.
    by rewrite merge_sort_Permutation in Hc. }
  split; [|split; [done|split]].
  - intros i j ci cj Hij Hi Hj.
    pose proof (StronglySorted_lookup _ _ _ _ _ _ Hsorted Hij Hi Hj) as Hout.
    destruct (outranks_staged store query o ci cj Hle) as [Hscore Hkind];
      [by eapply Hstaged, list_elem_of_lookup_2..|done|].
    do 2 (split; [done|]).
    intros Heq Hkeq.
    assert (entryRef ci ≠ entryRef cj) as Hne.
    { intros Href.
      pose proof (proj1 (NoDup_alt _) Hnodup i j (entryRef ci)) as Hnd.
      rewrite !list_lookup_fmap, Hi, Hj in Hnd. simpl in Hnd.
      rewrite Href in Hnd. specialize (Hnd eq_refl eq_refl). lia. }
    destruct Hout as [Hk|(_ & [Hlt|[_ Href]])].
    + rewrite Hkeq in Hk. lia.
    + rewrite Heq in Hlt. by destruct (irreflexivity Qclt (score cj)).
    + lia.
  - intros c Hc. split; [by apply Hstaged|].
    by apply (staged_refers store query o), Hstaged.
  - intros c Hc.
    destruct (dedupe_best ∅ ranked c Hranked) as (c' & Hc' & Href & Hout).
    + unfold ranked. by rewrite merge_sort_Permutation.
    + apply not_elem_of_empty.
    + exists c'. split; [done|]. split; [done|].
      by apply (outranks_staged store query o c' c Hle); [apply Hstaged| |].
Qed.

(** *** replaceText *)

Lemma search_empty_store query o : search [] query o = [].
Proof. done. Qed.

Lemma search_unmatched store query o :
  unmatched store query o → search store query o = [].
Proof.
  intros Hu. by rewrite search_unfold, (staged_nil_of_unmatched _ _ _ Hu).
Qed.

Lemma select_nil s : select s [] = None.
Proof. by destruct s. Qed.

Lemma resolve_not_found store so o t :
  search store (normalize (rawKeyword t)) so = [] →
  resolve store so o t = (not_found_text o t, not_found_record o t).
Proof. intros Hs. unfold resolve. by rewrite Hs, select_nil. Qed.


Lemma scan_nil_of_no_token txt : ¬ contains_token txt → scan txt = [].
Proof.
  intros Hno. destruct (scan txt) as [|t ts] eqn:Hscan; [done|exfalso].
  apply Hno. unfold scan in Hscan.
  destruct (scan_from_split txt 0 0 [] t ts Hscan)
    as (i & _ & _ & _ & _ & Hot & Hsub & _).
  exists (substring 0 i txt), (rawKeyword t),
    (drop_string (token_length (rawKeyword t)) (drop_string i txt)).
  set (rest := drop_string (token_length (rawKeyword t)) (drop_string i txt)).
  assert (token_open +:+ rawKeyword t +:+ "]" +:+ rest
          = (token_open +:+ rawKeyword t +:+ "]") +:+ rest) as ->
    by (by rewrite !append_assoc).
  rewrite <-Hot, <-Hsub, (substring_drop_string i). unfold rest.
  by rewrite !take_drop_string.
Qed.

Lemma read_keyword_app kw after :
  is_Some (read_keyword (kw +:+ "]" +:+ after)).
Proof.
  induction kw as [|c kw IH]; [by eexists|]. rewrite append_cons. simpl.
  destruct (Ascii.eqb c "]"); [by eexists|].
  destruct IH as [k ->]. by eexists.
Qed.

Lemma prefix_app p x : String.prefix p (p +:+ x) = true.
Proof.
  induction p as [|c p IH]; [by destruct x|]. rewrite append_cons. simpl.
  by destruct (ascii_dec c c).
Qed.

Lemma drop_string_app p x : drop_string (String.length p) (p +:+ x) = x.
Proof. induction p as [|c p IH]; [done|]. by rewrite append_cons. Qed.

Lemma token_at_app pos kw after :
  is_Some (token_at pos (token_open +:+ kw +:+ "]" +:+ after)).
Proof.
  unfold token_at. rewrite prefix_app, drop_string_app.
  destruct (read_keyword_app kw after) as [k ->]. by eexists.
Qed.

Lemma scan_from_finds before kw after pos :
  scan_from 0 pos (before +:+ token_open +:+ kw +:+ "]" +:+ after) ≠ [].
Proof.
  revert pos. induction before as [|c before IH]; intros pos.
  - rewrite append_nil_l.
    destruct (token_at_app pos kw after) as [t Ht].
    change (token_open +:+ kw +:+ "]" +:+ after)
      with (String "[" ("kaomoji:" +:+ kw +:+ "]" +:+ after)) in *.
    rewrite scan_from_head, Ht. done.
  - rewrite append_cons, scan_from_head.
    destruct (token_at pos _); [done|apply IH].
Qed.

(** The scanner finds a token exactly in the texts that contain one. *)
Lemma scan_nil_iff txt : scan txt = [] ↔ ¬ contains_token txt.
Proof.
  split; [|apply scan_nil_of_no_token].
  intros Hnil (before & kw & after & ->). by apply scan_from_finds in Hnil.
Qed.

Lemma replaceText_of_scan_nil store so o txt :
  scan txt = [] →
  replaceText store so txt o
  = {| text := txt; hasReplacements := false; successCount := 0;
       failureCount := 0; records := [] |}.
Proof. intros Hs. unfold replaceText. rewrite Hs. done. Qed.

(** C2: on a text without a token [[kaomoji:...]], the empty text among
    them, [replaceText] returns the text as it is, with [hasReplacements]
    false, no success, no failure and no record. *)
Theorem replaceText_without_tokens store so o :
  (∀ txt, ¬ contains_token txt →
     replaceText store so txt o
     = {| text := txt; hasReplacements := false; successCount := 0;
          failureCount := 0; records := [] |})
  ∧ replaceText store so "" o
    = {| text := ""; hasReplacements := false; successCount := 0;
         failureCount := 0; records := [] |}.
Proof.
  split; [|done].
  intros txt Hno. by apply replaceText_of_scan_nil, scan_nil_of_no_token.
Qed.

Lemma length_token_text kw :
  String.length (token_open +:+ kw +:+ "]") = token_length kw.
Proof. rewrite !length_app_string. unfold token_length. simpl. lia. Qed.

(** A token of the scan cuts the text, the scan and the rewriting in
    three. *)
Lemma replaceText_split store so o txt ts1 t ts2 :
  scan txt = ts1 ++ t :: ts2 →
  let before := substring 0 (startOffset t) txt in
  let after := drop_string (endOffset t) txt in
  txt = before +:+ originalText t +:+ after
  ∧ originalText t = token_open +:+ rawKeyword t +:+ "]"
  ∧ String.length (originalText t) = endOffset t - startOffset t
  ∧ scan before = ts1
  ∧ shift_token (endOffset t) <$> scan after = ts2
  ∧ text (replaceText store so txt o)
    = text (replaceText store so before o)
      +:+ fst (resolve store so o t)
      +:+ text (replaceText store so after o)
  ∧ records (replaceText store so txt o) !! length ts1
    = Some (snd (resolve store so o t)).
Proof.
  intros Hscan before after. unfold scan in Hscan.
  destruct (scan_from_split txt 0 0 ts1 t ts2 Hscan)
    as (i & Hi & _ & Hen & Hle & Hot & Hsub & H1 & H2).
  simpl in Hi. subst i.
  assert (startOffset t + token_length (rawKeyword t) = endOffset t) as Hend
    by lia.
  rewrite Hend in H2.
  split; [|split; [done|split; [|split; [done|split]]]].
  - unfold before, after. rewrite <-Hsub, <-Hend.
    rewrite (substring_drop_string (startOffset t)), <-drop_drop_string.
    by rewrite !take_drop_string.
  - rewrite Hot, length_token_text. lia.
  - unfold scan. by rewrite <-scan_from_shift.
  - split.
    + unfold replaceText at 1. simpl. unfold scan. rewrite Hscan.
      rewrite fmap_app, fmap_cons. unfold span_of at 2.
      rewrite apply_replacements_app; [|lia|].
      * f_equal; [by rewrite <-H1|]. f_equal.
        rewrite <-H2, scan_from_shift, <-list_fmap_compose.
        rewrite (list_fmap_ext (span_of store so o ∘ shift_token (endOffset t))
                   (shift_span (endOffset t) ∘ span_of store so o)
                   (scan_from 0 0 after))
          by done.
        rewrite list_fmap_compose.
        replace (endOffset t) with (endOffset t + 0) at 1 by lia.
        by rewrite apply_replacements_shift.
      * apply Forall_fmap, Forall_forall. intros t1 Ht1. simpl.
        rewrite <-H1 in Ht1. apply scan_from_bounds in Ht1 as (? & ? & Hb).
        rewrite length_take_string in Hb. lia.
    + unfold replaceText. simpl. unfold scan. rewrite Hscan.
      rewrite list_lookup_fmap, lookup_app_r by lia.
      by rewrite Nat.sub_diag.
Qed.

(** C1: a token of the text whose keyword yields no candidate is, in the
    output of [replaceText], between the rewritten text before it and the
    rewritten text after it: kept as it is under
    [keepOriginalOnNotFound]; replaced by the marker [[?keyword]] without
    that flag and under [markNotFound]; removed without both, so that the
    output is shorter by the length of the token than it is with the
    token in place.  The record of the token has the outcome
    [notFoundKept], [notFoundMarked] or [notFoundRemoved]. *)
Theorem replaceText_not_found store so o txt ts1 t ts2 :
  scan txt = ts1 ++ t :: ts2 →
  search store (normalize (rawKeyword t)) so = [] →
  let before := substring 0 (startOffset t) txt in
  let after := drop_string (endOffset t) txt in
  let out := replaceText store so txt o in
  let out_before := text (replaceText store so before o) in
  let out_after := text (replaceText store so after o) in
  let record_with (oc : Outcome) :=
    {| recKeyword := rawKeyword t; outcome := oc; chosenKaomoji := None |} in
  txt = before +:+ originalText t +:+ after
  ∧ originalText t = "[kaomoji:" +:+ rawKeyword t +:+ "]"
  ∧ String.length (originalText t) = endOffset t - startOffset t
  ∧ (keepOriginalOnNotFound o = true →
       text out = out_before +:+ originalText t +:+ out_after
       ∧ records out !! length ts1 = Some (record_with notFoundKept))
  ∧ (keepOriginalOnNotFound o = false → markNotFound o = true →
       text out = out_before +:+ ("[?" +:+ rawKeyword t +:+ "]") +:+ out_after
       ∧ records out !! length ts1 = Some (record_with notFoundMarked))
  ∧ (keepOriginalOnNotFound o = false → markNotFound o = false →
       text out = out_before +:+ out_after
       ∧ String.length (text out) + (endOffset t - startOffset t)
         = String.length (out_before +:+ originalText t +:+ out_after)
       ∧ records out !! length ts1 = Some (record_with notFoundRemoved)).
Proof.
  intros Hscan Hsearch before after out out_before out_after record_with.
  destruct (replaceText_split store so o txt ts1 t ts2 Hscan)
    as (Htxt & Hot & Hlen & _ & _ & Htext & Hrec).
  rewrite (resolve_not_found _ _ _ _ Hsearch) in Htext, Hrec. simpl in *.
  fold before after in Htxt, Htext. fold out out_before out_after in Htext.
  fold out in Hrec.
  unfold not_found_text, not_found_record, marker in *.
  do 3 (split; [done|]).
  split; [|split].
  - intros Hk. rewrite Hk in *. done.
  - intros Hk Hm. rewrite Hk, Hm in *. done.
  - intros Hk Hm. rewrite Hk, Hm in *.
    rewrite append_nil_l in Htext. split; [done|]. split; [|done].
    rewrite Htext, !length_app_string, Hlen. lia.
Qed.

(** C6: [search] is a total function, so it returns a sequence of
    candidates for every store and query and raises nothing.  On a query
    that matches nothing the sequence is empty, and so it is on the empty
    store.  On the empty store [replaceText] treats every token of the
    text as not found: its record has the outcome the two flags ask for,
    its span is replaced by the text they ask for, no token counts as a
    success and all count as failures. *)
Theorem search_and_replace_total so :
  (∀ store query, unmatched store query so → search store query so = [])
  ∧ (∀ query, search [] query so = [])
  ∧ (∀ txt o,
       let out := replaceText [] so txt o in
       records out = not_found_record o <$> scan txt
       ∧ successCount out = 0
       ∧ failureCount out = length (scan txt)
       ∧ hasReplacements out = bool_decide (scan txt ≠ [])
       ∧ text out
         = apply_replacements txt 0
             ((λ t, (startOffset t, endOffset t, not_found_text o t)) <$> scan txt)).
Proof.
  split; [intros; by apply search_unmatched|].
  split; [intros query; apply search_empty_store|].
  intros txt o out. unfold out, replaceText.
  assert (∀ t, resolve [] so o t = (not_found_text o t, not_found_record o t))
    as Hres by (intros t; by apply resolve_not_found).
  set (recs := (λ t, (resolve [] so o t).2) <$> scan txt).
  assert (recs = not_found_record o <$> scan txt) as Hrecs
    by (apply list_fmap_ext; intros _ t _; by rewrite Hres).
  assert (∀ l : list Token,
    filter (λ r, is_replaced r = true) (not_found_record o <$> l) = []
    ∧ filter (λ r, is_replaced r = false) (not_found_record o <$> l)
      = not_found_record o <$> l) as Hfilter.
  { induction l as [|t l [IH1 IH2]]; [done|]. rewrite fmap_cons.
    assert (is_replaced (not_found_record o t) = false) as Hnr
      by (unfold is_replaced, not_found_record; simpl;
          by destruct (keepOriginalOnNotFound o), (markNotFound o)).
    rewrite filter_cons_False by (by rewrite Hnr).
    rewrite filter_cons_True by done. by rewrite IH1, IH2. }
  simpl. rewrite Hrecs. destruct (Hfilter (scan txt)) as [-> ->].
  rewrite length_fmap. simpl.
  split; [done|]. split; [done|]. split; [done|]. split.
  - destruct (scan txt) as [|t l]; [done|].
    rewrite (bool_decide_true (_ ≠ _)) by done.
    apply bool_decide_eq_true. simpl. lia.
  - f_equal. apply list_fmap_ext. intros _ t _. unfold span_of.
    by rewrite Hres.
Qed.

End WithMatching.
End CoreProps.

(** ** The model on concrete inputs *)

Module Examples.
Import Core Extension Samples.
#[local] Existing Instance sample_matching.

(** The three examples of section 8 of the design document. *)
Example replace_happy :
  Core.replaceText happy_store sample_options "hi [kaomoji:happy] there"
    keep_options
  = {| text := "hi (^_^) there"; hasReplacements := true;
       successCount := 1; failureCount := 0;
       records := [ {| recKeyword := "happy"; outcome := replaced;
                       chosenKaomoji := Some "(^_^)" |} ] |}.
Proof. vm_compute. reflexivity. Qed.

Example keep_sad :
  Core.replaceText happy_store sample_options "[kaomoji:sad]" keep_options
  = {| text := "[kaomoji:sad]"; hasReplacements := true;
       successCount := 0; failureCount := 1;
       records := [ {| recKeyword := "sad"; outcome := notFoundKept;
                       chosenKaomoji := None |} ] |}.
Proof. vm_compute. reflexivity. Qed.

Example mark_sad :
  text (Core.replaceText happy_store sample_options "[kaomoji:sad]" mark_options)
  = "[?sad]".
Proof. vm_compute. reflexivity. Qed.

(** Offsets are those of the original text: a token that is not found
    and one that is, in one text. *)
Example replace_two :
  text (Core.replaceText sample_store sample_options
          "[kaomoji:zzz] and [kaomoji:joy]!" remove_options)
  = " and (^_^)!".
Proof. vm_compute. reflexivity. Qed.

(** A token that is not closed is no token, and the first closing bracket
    ends a token. *)
Example scan_unterminated :
  scan "[kaomoji:a] [kaomoji:b"
  = [ {| rawKeyword := "a"; startOffset := 0; endOffset := 11;
         originalText := "[kaomoji:a]" |} ].
Proof. vm_compute. reflexivity. Qed.

Example scan_nested :
  rawKeyword <$> scan "[kaomoji:[kaomoji:a]b]" = ["[kaomoji:a"].
Proof. vm_compute. reflexivity. Qed.

(** The exact match first, then the fuzzy matches in the order of the
    store; every entry once. *)
Example search_happy :
  (λ c, (entryRef c, matchKind c)) <$> search sample_store "happy" sample_options
  = [(0, exact); (1, fuzzy); (2, fuzzy)].
Proof. vm_compute. reflexivity. Qed.

(** The exact candidate comes first, also when a fuzzy candidate of an
    earlier entry has the same score; the token gets the kaomoji of the
    entry whose keyword it names. *)
Example search_tie :
  (λ c, (entryRef c, matchKind c)) <$> search tie_store "happy" sample_options
  = [(1, exact); (0, fuzzy)].
Proof. vm_compute. reflexivity. Qed.

Example replace_tie :
  text (Core.replaceText tie_store sample_options "[kaomoji:happy]" keep_options)
  = "(^_^)".
Proof. vm_compute. reflexivity. Qed.

(** Of the four sample messages, [processAllMessages] rewrites the one AI
    message with a keyword of the dataset; the user message, the message
    without a token and the message with an unknown keyword stay. *)
Example process_all :
  snd (processAllMessages quiet_host sample_world) = Returned 1
  ∧ mes <$> chat (fst (processAllMessages quiet_host
                         (with_settings content_settings sample_world)))
    = ["say hi [kaomoji:happy]"; "hi (^_^) there"; "nothing to replace";
       "[kaomoji:zzz]"].
Proof. split; vm_compute; reflexivity. Qed.

(** [restoreAllMessages] undoes it. *)
Example restore_all :
  mes <$> chat (fst (restoreAllMessages quiet_host
                       (fst (processAllMessages quiet_host
                               (with_settings content_settings sample_world)))))
  = mes <$> sample_chat.
Proof. vm_compute. reflexivity. Qed.

(** When [saveChat] throws, [processMessage] catches the exception and
    returns [false]; the message has been rewritten before. *)
Example process_failing_save :
  snd (processMessage failing_save_host 1
         (with_settings content_settings sample_world)) = Returned false
  ∧ mes <$> chat (fst (processMessage failing_save_host 1
                         (with_settings content_settings sample_world))) !! 1
    = Some "hi (^_^) there".
Proof. split; vm_compute; reflexivity. Qed.

(** Before [initCoreModules] the replacer is null: [processMessage]
    catches the TypeError. *)
Example process_uninitialised :
  snd (processMessage quiet_host 1 fresh_world) = Returned false.
Proof. vm_compute. reflexivity. Qed.

(** The handler of MESSAGE_RECEIVED processes the message; that of
    MESSAGE_SENT does not while user messages are switched off. *)
Example on_message_received :
  trace (fst (on_event quiet_host MESSAGE_RECEIVED 1 sample_world))
  = [UpdateMessageBlock 1; SaveChat]
  ∧ trace (fst (on_event quiet_host MESSAGE_SENT 0 sample_world)) = [].
Proof. split; vm_compute; reflexivity. Qed.

(** [initCoreModules] on a network that serves the user dataset, and on a
    network that is down. *)
Example init_loads_user_data :
  snd (initCoreModules quiet_host fresh_world) = Returned tt
  ∧ store <$> replacer (fst (initCoreModules quiet_host fresh_world))
    = Some sample_store
  ∧ trace (fst (initCoreModules quiet_host fresh_world)) = [Fetch user_data_url].
Proof. repeat split; vm_compute; reflexivity. Qed.

Example init_offline :
  snd (initCoreModules offline_host fresh_world)
  = Thrown (Error "No kaomoji data available").
Proof. vm_compute. reflexivity. Qed.

End Examples.

(** ** The theorems at work on the sample instances *)

Module Witnesses.
Import Core Extension Samples CoreProps ExtensionProps.
#[local] Existing Instance sample_matching.

Lemma replaceText_not_found_witness :
  text (Core.replaceText (Mt := sample_matching) sample_store sample_options
          "a [kaomoji:sad] b" mark_options) = "a [?sad] b"
  ∧ text (Core.replaceText (Mt := sample_matching) sample_store sample_options
            "a [kaomoji:sad] b" remove_options) = "a  b"
  ∧ text (Core.replaceText (Mt := sample_matching) sample_store sample_options
            "a [kaomoji:sad] b" keep_options) = "a [kaomoji:sad] b".
Proof.
  assert (scan "a [kaomoji:sad] b" = [] ++ sad_token :: []) as Hscan
    by (vm_compute; reflexivity).
  assert (search (Mt := sample_matching) sample_store
            (normalize (rawKeyword sad_token)) sample_options = []) as Hsearch
    by (vm_compute; reflexivity).
  split; [|split].
  - destruct (replaceText_not_found (Mt := sample_matching) sample_store
                sample_options mark_options _ _ _ _ Hscan Hsearch)
      as (_ & _ & _ & _ & Hmark & _).
    destruct (Hmark eq_refl eq_refl) as [-> _]. vm_compute. reflexivity.
  - destruct (replaceText_not_found (Mt := sample_matching) sample_store
                sample_options remove_options _ _ _ _ Hscan Hsearch)
      as (_ & _ & _ & _ & _ & Hremove).
    destruct (Hremove eq_refl eq_refl) as [-> _]. vm_compute. reflexivity.
  - destruct (replaceText_not_found (Mt := sample_matching) sample_store
                sample_options keep_options _ _ _ _ Hscan Hsearch)
      as (_ & _ & _ & Hkeep & _).
    destruct (Hkeep eq_refl) as [-> _]. vm_compute. reflexivity.
Defined.

Lemma replaceText_without_tokens_witness :
  Core.replaceText (Mt := sample_matching) sample_store sample_options
    "no token [kaomoji:here" keep_options
  = {| text := "no token [kaomoji:here"; hasReplacements := false;
       successCount := 0; failureCount := 0; records := [] |}.
Proof.
  apply (proj1 (replaceText_without_tokens (Mt := sample_matching)
                  sample_store sample_options keep_options)).
  apply scan_nil_iff. vm_compute. reflexivity.
Defined.

Lemma search_and_replace_total_witness :
  search (Mt := sample_matching) sample_store "zzz" sample_options = [].
Proof.
  apply (proj1 (search_and_replace_total (Mt := sample_matching) sample_options)).
  split; [vm_compute; reflexivity|].
  intros e He Hlt. unfold sample_store in He.
  repeat (apply elem_of_cons in He as [->|He]);
    [vm_compute in Hlt; discriminate..|by apply elem_of_nil in He].
Defined.

Lemma loadKaomojiData_fallback_witness :
  snd (loadKaomojiData offline_host created_world)
  = Thrown (Error "No kaomoji data available")
  ∧ trace (fst (loadKaomojiData template_host created_world))
    = [Fetch user_data_url; Fetch template_data_url]
  ∧ replacer (fst (loadKaomojiData template_host created_world))
    = Some {| store := take 1 (drop 1 sample_store); config := best |}.
Proof.
  split; [|split].
  - apply (loadKaomojiData_fallback offline_host created_world).
    + left. eexists. reflexivity.
    + left. eexists. reflexivity.
  - apply (loadKaomojiData_fallback template_host created_world).
    right. eexists. split; reflexivity.
  - pose proof (loadKaomojiData_fallback template_host created_world) as H.
    cbv zeta in H. destruct H as (_ & _ & _ & _ & H).
    set (w0 := with_manager new_KaomojiDataManager created_world) in *.
    set (w1 := fst (load_from template_host user_data_url user_not_ok w0)).
    set (w2 := fst (load_from template_host template_data_url template_not_ok w1)).
    destruct (H w1 (Error "HTTP 404") w2) as [-> _];
      [apply run_eta; vm_compute; reflexivity..|].
    vm_compute. reflexivity.
Defined.

Lemma sample_similarity_le_1 q s : (similarity (Matching := sample_matching) q s ≤ 1)%Qc.
Proof.
  simpl. destruct (String.eqb q s); [apply Qcle_refl|].
  destruct (negb (String.eqb q EmptyString) && String.prefix q s);
    by vm_compute.
Qed.

(** C5, the ordering invariant as section 3 words it fails on a tie
    between the exact candidate and a fuzzy candidate of an earlier
    entry: on the query "happy" [search] returns the exact candidate of
    the second entry of [tie_store] before the fuzzy candidate of the
    first, both of score 1. *)
Lemma search_tie_against_store_order :
  ¬ sorted_by_score_then_position
      (search (Mt := sample_matching) tie_store "happy" sample_options).
Proof.
  intros Hsorted.
  assert (∃ ci cj,
    search (Mt := sample_matching) tie_store "happy" sample_options !! 0
    = Some ci
    ∧ search (Mt := sample_matching) tie_store "happy" sample_options !! 1
      = Some cj
    ∧ score ci = score cj ∧ entryRef ci = 1 ∧ entryRef cj = 0)
    as (ci & cj & Hi & Hj & Hs & Hri & Hrj).
  { vm_compute. eexists _, _. repeat split; reflexivity. }
  destruct (Hsorted 0 1 ci cj) as [_ Hpos]; [lia|done..|].
  specialize (Hpos Hs). lia.
Qed.

Lemma search_sorted_dedup_witness :
  let found := search (Mt := sample_matching) tie_store "happy" sample_options in
  (∀ i j ci cj, (i < j)%nat → found !! i = Some ci → found !! j = Some cj →
     (score cj ≤ score ci)%Qc
     ∧ (kind_rank (matchKind ci) ≤ kind_rank (matchKind cj))%nat
     ∧ (score ci = score cj → matchKind ci = matchKind cj →
          (entryRef ci < entryRef cj)%nat))
  ∧ NoDup (entryRef <$> found)
  ∧ (∀ c, c ∈ found →
       c ∈ staged (Mt := sample_matching) tie_store "happy" sample_options
       ∧ tie_store !! entryRef c = Some (entry c))
  ∧ (∀ c, c ∈ staged (Mt := sample_matching) tie_store "happy" sample_options →
       ∃ c', c' ∈ found ∧ entryRef c' = entryRef c
         ∧ (score c ≤ score c')%Qc
         ∧ (kind_rank (matchKind c') ≤ kind_rank (matchKind c))%nat).
Proof.
  apply (search_sorted_dedup (Mt := sample_matching) tie_store "happy"
           sample_options).
  exact sample_similarity_le_1.
Defined.

Lemma quiet_host_returns : host_returns quiet_host.
Proof. intros c w. reflexivity. Qed.

Lemma core_lib_nothing_replaced_in_empty_text : nothing_replaced_in_empty_text.
Proof. intros r o. right. reflexivity. Qed.

Lemma processMessage_skips_or_modifies_witness :
  processMessage quiet_host 2 sample_world = (sample_world, Returned false)
  ∧ processMessage quiet_host 0 sample_world = (sample_world, Returned false).
Proof.
  split.
  - apply (processMessage_skips_or_modifies quiet_host sample_world 2).
    unfold skipped. simpl. do 3 right. eexists. split; [reflexivity|].
    left. vm_compute. reflexivity.
  - apply (processMessage_skips_or_modifies quiet_host sample_world 0).
    unfold skipped. simpl. right. left. split; reflexivity.
Defined.


Lemma kaomoji_original_write_once_witness :
  (∀ steps, backup_of (session quiet_host steps rewritten_world) 1
            = Some "hi [kaomoji:happy] there")
  ∧ (backup_of (session quiet_host
                  [Process 1; Configure content_settings; Process 1; Process 3]
                  sample_world) 1 = None
     ∨ backup_of (session quiet_host
                    [Process 1; Configure content_settings; Process 1; Process 3]
                    sample_world) 1 = Some "hi [kaomoji:happy] there").
Proof.
  split.
  - intros steps.
    destruct (kaomoji_original_write_once quiet_host rewritten_world 1)
      as [Hset _].
    destruct Hset as [_ ->]; vm_compute; reflexivity.
  - apply (proj2 (kaomoji_original_write_once quiet_host sample_world 1)
             core_lib_nothing_replaced_in_empty_text
             (ai_message "hi [kaomoji:happy] there")); reflexivity.
Defined.

Lemma restoreMessage_inverse_witness :
  ∃ w' m', restoreMessage quiet_host 1 rewritten_world = (w', Returned true)
           ∧ chat w' !! 1 = Some m'
           ∧ mes m' = "hi [kaomoji:happy] there"
           ∧ extra_get "kaomoji_original" m' = None.
Proof.
  destruct (proj1 (restoreMessage_inverse quiet_host rewritten_world 1)
              (content_update "hi (^_^) there" "hi [kaomoji:happy] there"
                 (ai_message "hi [kaomoji:happy] there"))
              "hi [kaomoji:happy] there")
    as (w' & c & m' & Hrun & Hm' & _ & Hko & _ & Hcontent & _ & _ & Hret);
    [vm_compute; reflexivity|vm_compute; reflexivity|discriminate|].
  exists w', m'. rewrite Hrun, (Hret quiet_host_returns).
  split; [done|]. split; [done|]. split; [|done].
  by destruct (Hcontent eq_refl).
Defined.

End Witnesses.

(** ** Every call and the whole chat *)

Module BatchProps.
Import Extension Batch ExtensionProps.
Local Open Scope nat_scope.

Section WithLib.
Context `{Lib : KaomojiReplacerLib} (host : Host).

Ltac run :=
  unfold bind, try_catch, gets, modify, ret, throw, update_message, call_host;
  simpl.

Lemma world_eta w : with_trace (trace w ++ []) (with_chat (chat w) w) = w.
Proof. destruct w; unfold with_trace, with_chat; simpl. by rewrite app_nil_r. Qed.

Lemma alter_same {A} (f : A → A) i (l : list A) :
  (∀ x, l !! i = Some x → f x = x) → alter f i l = l.
Proof.
  intros Hf. rewrite (list_alter_ext f id l l i) by auto.
  by apply list_alter_id.
Qed.

(** *** The tests of processMessage as one boolean *)

Lemma passes_skipped w messageId m :
  chat w !! messageId = Some m →
  passes (extension_settings w) (replacer w) m = false →
  skipped w messageId ∨ replacer w = None.
Proof.
  intros Hm. unfold passes, skipped. rewrite Hm. cbv zeta.
  destruct (is_system m); [by left; left|].
  destruct (is_user m) eqn:Hu; simpl.
  - destruct (processUserMessages (extension_settings w)); simpl;
      [|by left; right; left].
    destruct (replacer w) as [r|]; [|by right].
    intros [Hh%negb_true_iff|Hc%Nat.eqb_eq]%negb_false_iff%orb_true_iff;
      left; do 3 right; exists r; auto.
  - destruct (processAIMessages (extension_settings w)); simpl;
      [|by left; right; right; left].
    destruct (replacer w) as [r|]; [|by right].
    intros [Hh%negb_true_iff|Hc%Nat.eqb_eq]%negb_false_iff%orb_true_iff;
      left; do 3 right; exists r; auto.
Qed.

Lemma passes_not_skipped w messageId m :
  chat w !! messageId = Some m →
  passes (extension_settings w) (replacer w) m = true →
  ¬ skipped w messageId ∧ is_Some (replacer w).
Proof.
  intros Hm. unfold passes, skipped. rewrite Hm. cbv zeta.
  destruct (is_system m); [done|].
  destruct (is_user m) eqn:Hu; simpl.
  - destruct (processUserMessages (extension_settings w)); simpl; [|done].
    destruct (replacer w) as [r|]; [|done].
    intros [Hh%negb_false_iff Hc%Nat.eqb_neq]%negb_true_iff%orb_false_iff.
    split; [|by eexists].
    intros [?|[[? ?]|[[? ?]|(r' & ? & [?|?])]]]; simplify_eq; congruence.
  - destruct (processAIMessages (extension_settings w)); simpl; [|done].
    destruct (replacer w) as [r|]; [|done].
    intros [Hh%negb_false_iff Hc%Nat.eqb_neq]%negb_true_iff%orb_false_iff.
    split; [|by eexists].
    intros [?|[[? ?]|[[? ?]|(r' & ? & [?|?])]]]; simplify_eq; congruence.
Qed.

(** Every run of [processMessage]: the state it leaves, and what it
    returns. *)
Lemma processMessage_shape w messageId :
  let settings := extension_settings w in
  ∃ t b,
    processMessage host messageId w
    = (with_trace (trace w ++ t)
         (with_chat (alter (processed settings (replacer w)) messageId (chat w)) w),
       Returned b)
    ∧ (b = true → ∃ m, chat w !! messageId = Some m
                       ∧ passes settings (replacer w) m = true)
    ∧ (b = true → t = mode_calls settings messageId)
    ∧ (host_returns host → ∀ m, chat w !! messageId = Some m →
         b = passes settings (replacer w) m).
Proof.
  intros settings. unfold settings.
  destruct (chat w !! messageId) as [m|] eqn:Hm.
  - destruct (passes (extension_settings w) (replacer w) m) eqn:Hp.
    + destruct (passes_not_skipped w messageId m Hm Hp) as [Hns Hr].
      destruct (processMessage_modifies host w messageId Hns Hr)
        as (m0 & r & t & c & Hm0 & Hr' & Heq & Hc & Ht & Hh).
      assert (m0 = m) as -> by congruence. cbv zeta in *.
      assert (alter (mode_update (extension_settings w)
                       (replaceText r (mes m) (replace_options (extension_settings w)))
                       m) messageId (chat w)
              = alter (processed (extension_settings w) (replacer w)) messageId
                  (chat w)) as Halter.
      { apply list_alter_ext; [|done]. intros x Hx.
        assert (x = m) as -> by congruence.
        unfold processed. by rewrite Hr', <-Hr', Hp. }
      rewrite Halter in Heq. exists t.
      destruct Hc as [-> | ->].
      * exists true. split; [done|]. split; [eauto|]. split; [auto|].
        intros _ m1 Hm1. congruence.
      * exists false. split; [done|]. split; [done|]. split; [done|].
        intros Hret. by specialize (Hh Hret).
    + exists [], false.
      assert (processMessage host messageId w = (w, Returned false)) as ->.
      { destruct (passes_skipped w messageId m Hm Hp).
        - by apply processMessage_skipped.
        - by apply processMessage_uninitialised. }
      rewrite alter_same, world_eta.
      * split; [done|]. split; [done|]. split; [done|].
        intros _ m1 Hm1. congruence.
      * intros x Hx. assert (x = m) as -> by congruence.
        unfold processed. rewrite Hp. by destruct (replacer w).
  - exists [], false.
    rewrite processMessage_skipped by (unfold skipped; by rewrite Hm).
    rewrite alter_same, world_eta by (intros x Hx; congruence).
    split; [done|]. split; [done|]. split; [done|]. intros _ m1 Hm1. congruence.
Qed.


(** *** The message after a call *)

Lemma processed_fields settings r m :
  name (processed settings r m) = name m
  ∧ is_user (processed settings r m) = is_user m
  ∧ is_system (processed settings r m) = is_system m
  ∧ (modifyMode settings = "display" → mes (processed settings r m) = mes m).
Proof.
  unfold processed. destruct r as [r|]; [|done].
  destruct (passes settings (Some r) m); [|done].
  unfold mode_update.
  destruct (display_update_spec
              (text (replaceText r (mes m) (replace_options settings))) (mes m) m)
    as (? & ? & ? & ? & _).
  destruct (content_update_spec
              (text (replaceText r (mes m) (replace_options settings))) (mes m) m)
    as (? & ? & ? & ? & _).
  destruct (String.eqb (modifyMode settings) "display") eqn:Hmode;
    repeat split; try done.
  intros Hd. rewrite Hd in Hmode. done.
Qed.

Lemma processed_unless_passes settings r m :
  passes settings r m = false → processed settings r m = m.
Proof. unfold processed. intros ->. by destruct r. Qed.

Lemma passes_system settings r m : is_system m = true → passes settings r m = false.
Proof. unfold passes. by intros ->. Qed.

Lemma restored_unless_backup settings m :
  has_backup m = false → restored settings m = m.
Proof.
  unfold has_backup, restored.
  destruct (extra_get "kaomoji_original" m) as [s|]; [|done].
  by intros ->.
Qed.

Lemma restored_backup settings m s :
  extra_get "kaomoji_original" m = Some s → s ≠ "" →
  restored settings m = restore_update settings s m.
Proof.
  unfold restored. intros -> Hs%truthy_Some. by rewrite Hs.
Qed.

Lemma has_backup_restored settings m : has_backup (restored settings m) = false.
Proof.
  destruct (has_backup m) eqn:Hb.
  - unfold has_backup in Hb.
    destruct (extra_get "kaomoji_original" m) as [s|] eqn:Hs; [|done].
    apply truthy_Some in Hb. rewrite (restored_backup _ _ s) by done.
    unfold has_backup.
    destruct (restore_update_spec settings s m) as (_ & _ & _ & -> & _). done.
  - by rewrite restored_unless_backup.
Qed.

(** Every run of [restoreMessage]: the state it leaves, and how it ends. *)
Lemma restoreMessage_shape w messageId :
  ∃ t c,
    restoreMessage host messageId w
    = (with_trace (trace w ++ t)
         (with_chat (alter (restored (extension_settings w)) messageId (chat w)) w),
       c)
    ∧ (c = Returned (truthy (backup_of w messageId))
       ∨ (truthy (backup_of w messageId) = true ∧ ∃ e, c = Thrown e))
    ∧ (host_returns host → c = Returned (truthy (backup_of w messageId)))
    ∧ (truthy (backup_of w messageId) = false → t = []).
Proof.
  destruct (truthy (backup_of w messageId)) eqn:Hb.
  - unfold backup_of in Hb.
    destruct (chat w !! messageId) as [m|] eqn:Hm; [|done]. simpl in Hb.
    destruct (extra_get "kaomoji_original" m) as [s|] eqn:Hs; [|done].
    apply truthy_Some in Hb.
    destruct (restoreMessage_run host w messageId m s Hm Hs Hb)
      as (t & c & -> & Hc & Hh).
    assert (alter (restore_update (extension_settings w) s) messageId (chat w)
            = alter (restored (extension_settings w)) messageId (chat w))
      as ->.
    { apply list_alter_ext; [|done].
      intros x Hx. assert (x = m) as -> by congruence.
      by rewrite (restored_backup _ _ s). }
    exists t, c. split; [done|]. split; [tauto|]. done.
  - exists [], (Returned false).
    rewrite restoreMessage_nothing by done.
    rewrite alter_same, world_eta; [by auto|].
    intros x Hx. apply restored_unless_backup.
    unfold backup_of in Hb. by rewrite Hx in Hb.
Qed.

(** *** The loop of the two batch functions *)

Lemma count_loop_inv (P : nat → nat → World → Prop) (body : nat → M bool)
  todo i count w :
  P i count w →
  (∀ j c w1, P j c w1 → i ≤ j → j < i + todo →
     ∃ w2 b, body j w1 = (w2, Returned b) ∧ P (S j) (if b then S c else c) w2) →
  ∃ w' n, count_loop body todo i count w = (w', Returned n) ∧ P (i + todo) n w'.
Proof.
  revert i count w. induction todo as [|todo IH]; intros i count w HP Hstep.
  - exists w, count. split; [done|]. by rewrite Nat.add_0_r.
  - destruct (Hstep i count w HP) as (w2 & b & Hbody & HP2); [lia..|].
    destruct (IH (S i) (if b then S count else count) w2 HP2)
      as (w' & n & Hloop & HP').
    { intros j c w1 Hj ? ?. apply Hstep; [done|lia..]. }
    exists w', n. split.
    + simpl. unfold bind. by rewrite Hbody.
    + by replace (i + S todo) with (S i + todo) by lia.
Qed.

(** Iterations that return [false] and change nothing are skipped. *)
Lemma count_loop_skip (body : nat → M bool) n todo i count w :
  (∀ j, i ≤ j → j < i + n → body j w = (w, Returned false)) →
  count_loop body (n + todo) i count w = count_loop body todo (i + n) count w.
Proof.
  revert i. induction n as [|n IH]; intros i Hbody.
  - by rewrite Nat.add_0_r.
  - simpl. unfold bind. rewrite Hbody by lia.
    rewrite IH by (intros j ? ?; apply Hbody; lia).
    by replace (S i + n) with (i + S n) by lia.
Qed.

Lemma alter_take_drop {A} (f : A → A) j (l : list A) :
  j < length l →
  alter f j ((f <$> take j l) ++ drop j l)
  = (f <$> take (S j) l) ++ drop (S j) l.
Proof.
  revert j. induction l as [|x l IH]; intros j Hj; simpl in Hj; [lia|].
  destruct j as [|j]; [done|].
  simpl. f_equal. apply IH. lia.
Qed.

Lemma lookup_take_drop {A} (f : A → A) j (l : list A) :
  ((f <$> take j l) ++ drop j l) !! j = l !! j.
Proof.
  revert j. induction l as [|x l IH]; intros j; [by destruct j|].
  destruct j as [|j]; [done|]. simpl. apply IH.
Qed.

Lemma count_of_snoc test l x :
  count_of test (l ++ [x]) = count_of test l + (if test x then 1 else 0).
Proof.
  unfold count_of. rewrite filter_app, length_app. f_equal.
  rewrite filter_cons, filter_nil. by destruct (test x); simpl.
Qed.

Lemma count_of_take_S test l j x :
  l !! j = Some x →
  count_of test (take (S j) l)
  = count_of test (take j l) + (if test x then 1 else 0).
Proof. intros Hx. by rewrite (take_S_r _ _ x), count_of_snoc. Qed.


Lemma count_of_le test l : count_of test l ≤ length l.
Proof. apply length_filter. Qed.

(** Every run of [processAllMessages]. *)
Lemma processAllMessages_run w :
  let settings := extension_settings w in
  let r := replacer w in
  ∃ t n,
    processAllMessages host w
    = (with_trace (trace w ++ t)
         (with_chat (processed settings r <$> chat w) w), Returned n)
    ∧ n ≤ count_of (passes settings r) (chat w)
    ∧ (host_returns host → n = count_of (passes settings r) (chat w)).
Proof.
  intros settings r. unfold processAllMessages. run.
  destruct (count_loop_inv
    (λ j c w1, ∃ t,
       w1 = with_trace (trace w ++ t)
              (with_chat ((processed settings r <$> take j (chat w))
                          ++ drop j (chat w)) w)
       ∧ c ≤ count_of (passes settings r) (take j (chat w))
       ∧ (host_returns host → c = count_of (passes settings r) (take j (chat w))))
    (processMessage host) (length (chat w)) 0 0 w)
    as (w' & n & Hloop & t & Hw' & Hle & Heq).
  - exists []. simpl. rewrite drop_0, world_eta. done.
  - intros j c w1 (t & -> & Hle & Heq) _ Hj. simpl in Hj.
    destruct (processMessage_shape (with_trace (trace w ++ t)
                (with_chat ((processed settings r <$> take j (chat w))
                            ++ drop j (chat w)) w)) j)
      as (t' & b & Hrun & Hb & _ & Hh).
    simpl in Hrun, Hb, Hh. fold settings r in Hrun, Hb, Hh.
    rewrite alter_take_drop in Hrun by done.
    rewrite lookup_take_drop in Hb, Hh.
    destruct (lookup_lt_is_Some_2 (chat w) j Hj) as [m Hm].
    eexists _, b. split; [exact Hrun|]. exists (t ++ t').
    split; [unfold with_trace, with_chat; simpl; by rewrite app_assoc|].
    rewrite (count_of_take_S _ _ _ m Hm). split.
    + destruct b; [|lia]. destruct (Hb eq_refl) as (m' & Hm' & Hp).
      assert (m' = m) as -> by congruence. rewrite Hp. lia.
    + intros Hret. rewrite (Hh Hret m Hm), (Heq Hret).
      destruct (passes settings r m); lia.
  - simpl in *. rewrite firstn_all, drop_all, app_nil_r in *.
    exists t, n. by rewrite Hloop, Hw'.
Qed.

(** A run of [restoreAllMessages] on a host whose calls return. *)
Lemma restoreAllMessages_run w :
  host_returns host →
  ∃ t,
    restoreAllMessages host w
    = (with_trace (trace w ++ t)
         (with_chat (restored (extension_settings w) <$> chat w) w),
       Returned (count_of has_backup (chat w))).
Proof.
  intros Hret. unfold restoreAllMessages. run.
  set (settings := extension_settings w).
  destruct (count_loop_inv
    (λ j c w1, ∃ t,
       w1 = with_trace (trace w ++ t)
              (with_chat ((restored settings <$> take j (chat w))
                          ++ drop j (chat w)) w)
       ∧ c = count_of has_backup (take j (chat w)))
    (restoreMessage host) (length (chat w)) 0 0 w)
    as (w' & n & Hloop & t & Hw' & Heq).
  - exists []. simpl. rewrite drop_0, world_eta. done.
  - intros j c w1 (t & -> & Heq) _ Hj. simpl in Hj.
    destruct (restoreMessage_shape (with_trace (trace w ++ t)
                (with_chat ((restored settings <$> take j (chat w))
                            ++ drop j (chat w)) w)) j)
      as (t' & c' & Hrun & _ & Hh & _).
    rewrite (Hh Hret) in Hrun. clear Hh.
    unfold backup_of in Hrun. simpl in Hrun. fold settings in Hrun.
    rewrite alter_take_drop in Hrun by done.
    rewrite lookup_take_drop in Hrun.
    destruct (lookup_lt_is_Some_2 (chat w) j Hj) as [m Hm].
    rewrite Hm in Hrun. simpl in Hrun.
    eexists _, _. split; [exact Hrun|]. exists (t ++ t').
    split; [unfold with_trace, with_chat; simpl; by rewrite app_assoc|].
    rewrite (count_of_take_S _ _ _ m Hm), Heq. unfold has_backup.
    destruct (truthy (extra_get "kaomoji_original" m)); lia.
  - simpl in *. rewrite firstn_all, drop_all, app_nil_r in *.
    exists t. by rewrite Hloop, Hw', Heq.
Qed.


Lemma processMessage_unless_passes w messageId :
  (∀ m, chat w !! messageId = Some m →
        passes (extension_settings w) (replacer w) m = false) →
  processMessage host messageId w = (w, Returned false).
Proof.
  intros Hp. destruct (chat w !! messageId) as [m|] eqn:Hm.
  - destruct (passes_skipped w messageId m Hm (Hp m eq_refl)).
    + by apply processMessage_skipped.
    + by apply processMessage_uninitialised.
  - apply processMessage_skipped. unfold skipped. by rewrite Hm.
Qed.

Lemma fmap_alter_same {A B} (g : A → B) (f : A → A) i (l : list A) :
  (∀ x, g (f x) = g x) → g <$> alter f i l = g <$> l.
Proof.
  intros Hg. revert i. induction l as [|x l IH]; intros i; [done|].
  destruct i as [|i]; csimpl; [by rewrite Hg|]. f_equal. apply IH.
Qed.

Lemma fmap_same {A} (f : A → A) (l : list A) :
  (∀ x, x ∈ l → f x = x) → f <$> l = l.
Proof.
  induction l as [|x l IH]; intros Hf; [done|]. csimpl.
  rewrite (Hf x) by left. f_equal. apply IH. intros y Hy. apply Hf. by right.
Qed.

Lemma Message_ext m1 m2 :
  name m1 = name m2 → mes m1 = mes m2 → is_user m1 = is_user m2 →
  is_system m1 = is_system m2 → extra m1 = extra m2 → m1 = m2.
Proof. destruct m1, m2; simpl; congruence. Qed.

Lemma display_update_extra d o m :
  extra (display_update d o m)
  = Some (<["display_text" := d]>
            (if truthy (extra_get "kaomoji_original" m) then extra_obj m
             else <["kaomoji_original" := o]> (extra_obj m))).
Proof.
  unfold display_update; simpl. unfold set_extra_key; simpl. do 2 f_equal.
  unfold backup_original. rewrite extra_get_init_extra.
  destruct (truthy _); destruct m as [? ? ? ? [e|]]; done.
Qed.

Lemma display_update_idem d o m :
  display_update d o (display_update d o m) = display_update d o m.
Proof.
  destruct (display_update_spec d o m) as (Hn & Hm & Hu & Hs & _).
  destruct (display_update_spec d o (display_update d o m))
    as (Hn' & Hm' & Hu' & Hs' & _).
  apply Message_ext; try congruence.
  rewrite (display_update_extra d o (display_update d o m)).
  rewrite display_update_backup.
  unfold extra_obj at 1 2. rewrite !display_update_extra. simpl.
  f_equal. apply map_eq. intros k.
  destruct (truthy (extra_get "kaomoji_original" m)) eqn:Ht.
  - rewrite Ht. by rewrite insert_insert_eq.
  - destruct (truthy (Some o)).
    + by rewrite insert_insert_eq.
    + destruct (decide (k = "display_text")) as [->|Hk1];
        [by rewrite !lookup_insert_eq|].
      destruct (decide (k = "kaomoji_original")) as [->|Hk2].
      * rewrite !(lookup_insert_ne _ "display_text") by done.
        by rewrite !lookup_insert_eq.
      * by rewrite !lookup_insert_ne by congruence.
Qed.

Lemma passes_ext settings r m1 m2 :
  mes m1 = mes m2 → is_user m1 = is_user m2 → is_system m1 = is_system m2 →
  passes settings r m1 = passes settings r m2.
Proof. unfold passes. by intros -> -> ->. Qed.

Lemma processed_idem_display settings r m :
  modifyMode settings = "display" →
  processed settings r (processed settings r m) = processed settings r m.
Proof.
  intros Hmode.
  destruct (passes settings r m) eqn:Hp;
    [|by rewrite !(processed_unless_passes _ _ m Hp)].
  destruct (processed_fields settings r m) as (_ & Hu & Hs & Hmes).
  specialize (Hmes Hmode).
  pose proof (passes_ext settings r _ _ Hmes Hu Hs) as Hp'. rewrite Hp in Hp'.
  destruct r as [r|]; [|done].
  set (d := text (replaceText r (mes m) (replace_options settings))).
  assert (processed settings (Some r) m = display_update d (mes m) m) as Hm1.
  { unfold processed, mode_update. by rewrite Hp, Hmode. }
  assert (processed settings (Some r) (processed settings (Some r) m)
          = display_update d (mes m) (processed settings (Some r) m)) as ->.
  { unfold processed at 1, mode_update. by rewrite Hp', Hmode, Hmes. }
  rewrite Hm1. apply display_update_idem.
Qed.

(** The chat after a run of [processMessage], and the rest of the state. *)
Lemma processMessage_chat w messageId :
  chat (fst (processMessage host messageId w))
  = alter (processed (extension_settings w) (replacer w)) messageId (chat w)
  ∧ extension_settings (fst (processMessage host messageId w))
    = extension_settings w
  ∧ replacer (fst (processMessage host messageId w)) = replacer w
  ∧ manager (fst (processMessage host messageId w)) = manager w.
Proof.
  destruct (processMessage_shape w messageId) as (t & b & -> & _). done.
Qed.

Lemma session_system_message steps w messageId m :
  chat w !! messageId = Some m → is_system m = true →
  chat (session host steps w) !! messageId = Some m.
Proof.
  revert w. induction steps as [|s steps IH]; intros w Hm Hsys; [done|].
  rewrite session_cons. apply IH; [|done].
  destruct (session_step_message host s w messageId m Hm)
    as [?|(r & Hns & _)]; [done|].
  destruct Hns. unfold skipped. rewrite Hm. by left.
Qed.

Lemma session_display_mes steps w :
  modifyMode (extension_settings w) = "display" →
  (∀ s, Configure s ∈ steps → modifyMode s = "display") →
  mes <$> chat (session host steps w) = mes <$> chat w.
Proof.
  revert w. induction steps as [|s steps IH]; intros w Hmode Hsteps; [done|].
  rewrite session_cons.
  assert (∀ s', Configure s' ∈ steps → modifyMode s' = "display") as Hsteps'
    by (intros s' Hs'; apply Hsteps; by right).
  destruct s as [j|settings]; simpl.
  - destruct (processMessage_chat w j) as (Hchat & Hset & _).
    rewrite IH by (by rewrite ?Hset). rewrite Hchat.
    apply fmap_alter_same. intros x.
    by apply (processed_fields (extension_settings w) (replacer w) x).
  - rewrite IH; [done| |done]. simpl. apply Hsteps. by left.
Qed.

Lemma has_backup_processed settings r m :
  nothing_replaced_in_empty_text → has_backup m = false →
  has_backup (processed settings r m) = passes settings r m
  ∧ mes (restored settings (processed settings r m)) = mes m
  ∧ (∀ k, k ≠ "kaomoji_original" → k ≠ "display_text" →
       extra_get k (restored settings (processed settings r m)) = extra_get k m).
Proof.
  intros Hempty Hb. destruct (passes settings r m) eqn:Hp.
  - unfold processed. rewrite Hp. destruct r as [r|]; [|by unfold passes in Hp;
      repeat case_match].
    set (result := replaceText r (mes m) (replace_options settings)).
    set (m1 := mode_update settings result m m).
    assert (extra_get "kaomoji_original" m1 = Some (mes m)) as Hko.
    { unfold m1. rewrite mode_update_backup. unfold has_backup in Hb.
      by rewrite Hb. }
    assert (mes m ≠ "") as Hne.
    { intros Hnil. unfold passes in Hp. rewrite Hnil in Hp.
      repeat case_match; try done. cbv zeta in Hp.
      apply negb_true_iff, orb_false_iff in Hp as [Hh%negb_false_iff Hc%Nat.eqb_neq].
      destruct (Hempty r (replace_options settings)); congruence. }
    split; [unfold has_backup; rewrite Hko; by apply truthy_Some|].
    rewrite (restored_backup _ _ (mes m)) by done.
    destruct (restore_update_spec settings (mes m) m1)
      as (_ & _ & _ & _ & Hk & Hd & Hnd).
    assert (mes m1 = (if String.eqb (modifyMode settings) "display"
                      then mes m else text result)
            ∧ ∀ k, k ≠ "kaomoji_original" → k ≠ "display_text" →
                   extra_get k m1 = extra_get k m) as [Hmes Hkeys].
    { unfold m1, mode_update.
      destruct (display_update_spec (text result) (mes m) m)
        as (_ & ? & _ & _ & _ & ?).
      destruct (content_update_spec (text result) (mes m) m)
        as (_ & ? & _ & _ & ?).
      destruct (String.eqb (modifyMode settings) "display"); split; auto. }
    split.
    + destruct (String.eqb (modifyMode settings) "display") eqn:Hmode.
      * apply String.eqb_eq in Hmode. destruct (Hd Hmode) as [-> _]. done.
      * apply String.eqb_neq in Hmode. by destruct (Hnd Hmode) as [-> _].
    + intros k Hk1 Hk2. rewrite Hk by done. by apply Hkeys.
  - rewrite processed_unless_passes, restored_unless_backup by done. done.
Qed.

Lemma count_of_ext test1 test2 l :
  (∀ m, m ∈ l → test1 m = test2 m) → count_of test1 l = count_of test2 l.
Proof.
  unfold count_of. induction l as [|x l IH]; intros Hl; [done|].
  rewrite !filter_cons. rewrite (Hl x) by left.
  destruct (decide (test2 x = true)); simpl; rewrite IH; try done;
    intros m Hm; apply Hl; by right.
Qed.

Lemma count_of_fmap test f l :
  count_of test (f <$> l) = count_of (test ∘ f) l.
Proof.
  unfold count_of. induction l as [|x l IH]; [done|].
  rewrite fmap_cons, !filter_cons. simpl.
  destruct (decide (test (f x) = true)); simpl; by rewrite IH.
Qed.

Lemma count_of_none test l :
  (∀ m, m ∈ l → test m = false) → count_of test l = 0.
Proof.
  unfold count_of. induction l as [|x l IH]; intros Hl; [done|].
  rewrite filter_cons. rewrite (Hl x) by left.
  rewrite decide_False by done. apply IH. intros m Hm. apply Hl. by right.
Qed.


(** *** processMessage on any state and host *)

(** X1: [processMessage] never throws, whatever the state and the host:
    it returns a boolean.  It leaves the settings, the replacer and the
    data manager as they are, the chat keeps its length and every other
    message, the message itself keeps its name and its two flags, and the
    host calls made so far stay at the head of the trace. *)
Theorem processMessage_never_throws w messageId :
  let w' := fst (processMessage host messageId w) in
  (∃ b, snd (processMessage host messageId w) = Returned b)
  ∧ extension_settings w' = extension_settings w
  ∧ replacer w' = replacer w ∧ manager w' = manager w
  ∧ length (chat w') = length (chat w)
  ∧ (∀ j, j ≠ messageId → chat w' !! j = chat w !! j)
  ∧ (∀ m, chat w !! messageId = Some m →
       ∃ m', chat w' !! messageId = Some m' ∧ name m' = name m
             ∧ is_user m' = is_user m ∧ is_system m' = is_system m)
  ∧ (∃ t, trace w' = trace w ++ t).
Proof.
  destruct (processMessage_shape w messageId) as (t & b & Hrun & _).
  cbv zeta. rewrite Hrun. simpl.
  split; [by exists b|]. do 3 (split; [done|]).
  split; [apply length_alter|].
  split; [intros j Hj; by apply list_lookup_alter_ne|].
  split; [|by exists t].
  intros m Hm. rewrite list_lookup_alter_eq, Hm. simpl. eexists. split; [done|].
  destruct (processed_fields (extension_settings w) (replacer w) m)
    as (? & ? & ? & _).
  done.
Qed.

(** X2: a handler registered by [registerEventListeners] never throws,
    and it changes the state only when the extension is enabled,
    [autoProcess] is on, the flag of the event's kind is on
    ([processAIMessages] for MESSAGE_RECEIVED, [processUserMessages] for
    MESSAGE_SENT), and the message passes the tests of [processMessage]
    itself, which look at the kind of the message, not of the event. *)
Theorem on_event_gated event messageId w :
  let settings := extension_settings w in
  snd (on_event host event messageId w) = Returned tt
  ∧ (fst (on_event host event messageId w) ≠ w →
       enabled settings = true ∧ autoProcess settings = true
       ∧ (event = MESSAGE_RECEIVED ∧ processAIMessages settings = true
          ∨ event = MESSAGE_SENT ∧ processUserMessages settings = true)
       ∧ ∃ m, chat w !! messageId = Some m
              ∧ passes settings (replacer w) m = true).
Proof.
  cbv zeta.
  assert (snd (processMessage host messageId w) ≠ Thrown (Error "")
          ∧ (fst (processMessage host messageId w) ≠ w →
             ∃ m, chat w !! messageId = Some m
                  ∧ passes (extension_settings w) (replacer w) m = true))
    as [_ Hchange].
  { split; [destruct (processMessage_shape w messageId) as (t & b & -> & _);
            done|].
    intros Hne. destruct (chat w !! messageId) as [m|] eqn:Hm.
    - destruct (passes (extension_settings w) (replacer w) m) eqn:Hp; [eauto|].
      destruct Hne. rewrite processMessage_unless_passes; [done|].
      intros m' Hm'. congruence.
    - destruct Hne. rewrite processMessage_unless_passes; [done|].
      intros m' Hm'. congruence. }
  destruct (processMessage_shape w messageId) as (t & b & Hrun & _).
  unfold on_event. run.
  destruct event.
  - destruct (enabled (extension_settings w)); simpl; [|done].
    destruct (autoProcess (extension_settings w)); simpl; [|done].
    destruct (processAIMessages (extension_settings w)) eqn:Hai; simpl; [|done].
    rewrite Hrun in *. simpl in *. unfold ret. simpl. split; [done|].
    intros Hne. do 2 (split; [done|]). split; [by left|]. by apply Hchange.
  - destruct (enabled (extension_settings w)); simpl; [|done].
    destruct (autoProcess (extension_settings w)); simpl; [|done].
    destruct (processUserMessages (extension_settings w)) eqn:Hu; simpl; [|done].
    rewrite Hrun in *. simpl in *. unfold ret. simpl. split; [done|].
    intros Hne. do 2 (split; [done|]). split; [by right|]. by apply Hchange.
  - done.
Qed.

(** X3: a system message is never modified by processing: it is the same
    after any session of [processMessage] calls and changes of the
    settings, and after [processAllMessages]. *)
Theorem system_messages_untouched w messageId m :
  chat w !! messageId = Some m → is_system m = true →
  (∀ steps, chat (session host steps w) !! messageId = Some m)
  ∧ chat (fst (processAllMessages host w)) !! messageId = Some m.
Proof.
  intros Hm Hsys. split.
  - intros steps. by apply session_system_message.
  - destruct (processAllMessages_run w) as (t & n & -> & _). simpl.
    rewrite list_lookup_fmap, Hm. simpl.
    by rewrite processed_unless_passes by (by apply passes_system).
Qed.

(** X4: in mode 'display' a second [processMessage] on the same message
    leaves the chat as the first left it: the text is replaced from the
    unchanged [message.mes] again, with the same result. *)
Theorem processMessage_display_idempotent w messageId :
  modifyMode (extension_settings w) = "display" →
  let w1 := fst (processMessage host messageId w) in
  chat (fst (processMessage host messageId w1)) = chat w1.
Proof.
  intros Hmode w1.
  destruct (processMessage_chat w messageId) as (Hchat & Hset & Hrep & _).
  fold w1 in Hchat, Hset, Hrep.
  destruct (processMessage_chat w1 messageId) as (-> & _).
  rewrite Hset, Hrep, Hchat, list_alter_alter_eq.
  apply list_alter_ext; [|done]. intros x _. simpl.
  by apply processed_idem_display.
Qed.

(** X5: in mode 'display' the texts [message.mes] of the chat are never
    changed: not by a call of [processMessage], whatever it returns and
    whatever the host does, not by [processAllMessages], and not by a
    session in which the settings stay in mode 'display'. *)
Theorem display_mode_keeps_mes w :
  modifyMode (extension_settings w) = "display" →
  (∀ messageId,
     mes <$> chat (fst (processMessage host messageId w)) = mes <$> chat w)
  ∧ mes <$> chat (fst (processAllMessages host w)) = mes <$> chat w
  ∧ (∀ steps, (∀ s, Configure s ∈ steps → modifyMode s = "display") →
       mes <$> chat (session host steps w) = mes <$> chat w).
Proof.
  intros Hmode. split; [|split].
  - intros messageId. destruct (processMessage_chat w messageId) as (-> & _).
    apply fmap_alter_same. intros x.
    by apply (processed_fields (extension_settings w) (replacer w) x).
  - destruct (processAllMessages_run w) as (t & n & -> & _). simpl.
    rewrite <-list_fmap_compose. apply list_fmap_ext. intros i x _. simpl.
    by apply (processed_fields (extension_settings w) (replacer w) x).
  - intros steps Hsteps. by apply session_display_mes.
Qed.

(** *** The two batch functions *)

(** X6: [processAllMessages] never throws.  It leaves every message as a
    single [processMessage] on the initial state would: a message that
    passes the tests goes through the update of the configured mode, the
    others stay; settings and replacer stay.  The number it returns is at
    most the number of messages that pass the tests, and it is that number
    when the host calls return. *)
Theorem processAllMessages_spec w :
  let settings := extension_settings w in
  let r := replacer w in
  let w' := fst (processAllMessages host w) in
  chat w' = processed settings r <$> chat w
  ∧ extension_settings w' = settings ∧ replacer w' = r
  ∧ ∃ n, snd (processAllMessages host w) = Returned n
         ∧ n ≤ count_of (passes settings r) (chat w)
         ∧ (host_returns host → n = count_of (passes settings r) (chat w)).
Proof.
  destruct (processAllMessages_run w) as (t & n & Hrun & Hle & Heq).
  cbv zeta in *. rewrite Hrun. simpl. do 3 (split; [done|]). by exists n.
Qed.

(** X7: on a host whose calls return, [restoreAllMessages] restores every
    message that has a backup and returns their number; afterwards no
    message has a backup, and a second [restoreAllMessages] returns 0 and
    leaves the chat as it is. *)
Theorem restoreAllMessages_spec w :
  host_returns host →
  let w' := fst (restoreAllMessages host w) in
  snd (restoreAllMessages host w) = Returned (count_of has_backup (chat w))
  ∧ chat w' = restored (extension_settings w) <$> chat w
  ∧ (∀ j, truthy (backup_of w' j) = false)
  ∧ snd (restoreAllMessages host w') = Returned 0
  ∧ chat (fst (restoreAllMessages host w')) = chat w'.
Proof.
  intros Hret. destruct (restoreAllMessages_run w Hret) as (t & Hrun).
  cbv zeta. rewrite Hrun. simpl. do 2 (split; [done|]).
  set (w' := with_trace _ _).
  assert (∀ m, m ∈ chat w' → has_backup m = false) as Hnone.
  { intros m (m0 & -> & _)%list_elem_of_fmap. apply has_backup_restored. }
  split.
  { intros j. unfold backup_of. destruct (chat w' !! j) as [m|] eqn:Hm; [|done].
    apply Hnone. by eapply list_elem_of_lookup_2. }
  destruct (restoreAllMessages_run w' Hret) as (t' & ->). simpl.
  split; [by rewrite count_of_none|].
  apply fmap_same. intros x Hx. by apply restored_unless_backup, Hnone.
Qed.

(** X8: [restoreAllMessages] does not catch: when the first message with a
    backup is one on which [restoreMessage] throws (a host call failed),
    the batch ends there with that exception, and the messages after it
    are as they were, their backups included. *)
Theorem restoreAllMessages_aborts w messageId w' e :
  (∀ j, j < messageId → truthy (backup_of w j) = false) →
  restoreMessage host messageId w = (w', Thrown e) →
  restoreAllMessages host w = (w', Thrown e)
  ∧ (∀ j, j ≠ messageId → chat w' !! j = chat w !! j).
Proof.
  intros Hbefore Hthrow.
  destruct (restoreMessage_shape w messageId) as (t & c & Hrun & Hc & _).
  rewrite Hrun in Hthrow. injection Hthrow as <- ->.
  destruct Hc as [?|[Hb _]]; [done|].
  assert (messageId < length (chat w)) as Hlt.
  { unfold backup_of in Hb. apply lookup_lt_is_Some.
    by destruct (chat w !! messageId). }
  split; [|intros j Hj; by apply list_lookup_alter_ne].
  unfold restoreAllMessages. run.
  replace (length (chat w))
    with (messageId + S (length (chat w) - S messageId)) by lia.
  rewrite count_loop_skip
    by (intros j _ Hj; apply restoreMessage_nothing, Hbefore; lia).
  simpl. unfold bind. by rewrite Hrun.
Qed.

(** X9: [restoreMessage] a second time finds nothing to restore: whatever
    the first call did, and however it ended, the second returns [false]
    and changes nothing. *)
Theorem restoreMessage_twice w messageId :
  let w1 := fst (restoreMessage host messageId w) in
  restoreMessage host messageId w1 = (w1, Returned false).
Proof.
  intros w1. apply restoreMessage_nothing.
  destruct (restoreMessage_shape w messageId) as (t & c & Hrun & _).
  unfold w1. rewrite Hrun. simpl.
  change (backup_of (with_trace ?t ?w) ?i) with (backup_of w i).
  rewrite backup_of_alter, decide_True by done.
  destruct (chat w !! messageId) as [m|]; [|done]. simpl.
  apply has_backup_restored.
Qed.

(** X10: [restoreMessage] undoes a modification only in the mode that
    made it.  A message rewritten in mode 'content' and restored after a
    switch to mode 'display' keeps the rewritten text in [message.mes]
    while its backup is deleted; a message processed in mode 'display' and
    restored after a switch away from it gets its text back but keeps the
    rewritten text in [message.extra.display_text]. *)
Theorem restoreMessage_after_mode_switch w messageId m w1 settings' :
  chat w !! messageId = Some m →
  truthy (extra_get "kaomoji_original" m) = false → mes m ≠ "" →
  processMessage host messageId w = (w1, Returned true) →
  ∃ r m2,
    replacer w = Some r
    ∧ chat (fst (restoreMessage host messageId (with_settings settings' w1)))
        !! messageId = Some m2
    ∧ extra_get "kaomoji_original" m2 = None
    ∧ let rewritten :=
        text (replaceText r (mes m) (replace_options (extension_settings w))) in
      (modifyMode (extension_settings w) ≠ "display" →
       modifyMode settings' = "display" → mes m2 = rewritten)
      ∧ (modifyMode (extension_settings w) = "display" →
         modifyMode settings' ≠ "display" →
         mes m2 = mes m ∧ extra_get "display_text" m2 = Some rewritten).
Proof.
  intros Hm Hfalsy Hne Hrun.
  destruct (processMessage_true host w messageId w1 Hrun)
    as (m0 & r & _ & Hm0 & Hr & Hw).
  assert (m0 = m) as -> by congruence. cbv zeta in Hw.
  set (settings := extension_settings w) in *.
  set (result := replaceText r (mes m) (replace_options settings)) in *.
  set (m1 := mode_update settings result m m).
  set (w2 := with_settings settings' w1).
  assert (chat w1 !! messageId = Some m1) as Hm1
    by (rewrite Hw; simpl; by rewrite list_lookup_alter_eq, Hm).
  assert (extra_get "kaomoji_original" m1 = Some (mes m)) as Hb
    by (unfold m1; by rewrite mode_update_backup, Hfalsy).
  destruct (restoreMessage_run host w2 messageId m1 (mes m) Hm1 Hb Hne)
    as (t & c & Heq & _).
  rewrite Heq. simpl. rewrite list_lookup_alter_eq, Hm1. simpl.
  exists r. eexists. do 2 (split; [done|]).
  destruct (restore_update_spec settings' (mes m) m1)
    as (_ & _ & _ & Hko & _ & Hd & Hnd).
  split; [done|]. cbv zeta. split.
  - intros Hcontent Hdisplay. destruct (Hd Hdisplay) as [-> _].
    unfold m1, mode_update. apply String.eqb_neq in Hcontent. rewrite Hcontent.
    by destruct (content_update_spec (text result) (mes m) m) as (_ & -> & _).
  - intros Hdisplay Hcontent. destruct (Hnd Hcontent) as [-> ->].
    split; [done|]. unfold m1, mode_update. rewrite Hdisplay. simpl.
    by destruct (display_update_spec (text result) (mes m) m)
      as (_ & _ & _ & _ & -> & _).
Qed.

(** X11: [restoreAllMessages] after [processAllMessages], in the same
    mode and on a host whose calls return, brings every [message.mes]
    back, when no message had a backup before and the library replaces
    nothing in the empty text; it returns the number [processAllMessages]
    returned, and no message is left with a backup. *)
Theorem restoreAll_after_processAll w :
  host_returns host → nothing_replaced_in_empty_text →
  (∀ m, m ∈ chat w → has_backup m = false) →
  let w1 := fst (processAllMessages host w) in
  let w2 := fst (restoreAllMessages host w1) in
  mes <$> chat w2 = mes <$> chat w
  ∧ snd (restoreAllMessages host w1) = snd (processAllMessages host w)
  ∧ (∀ j, truthy (backup_of w2 j) = false).
Proof.
  intros Hret Hempty Hnone.
  destruct (processAllMessages_run w) as (t & n & Hrun & _ & Hn).
  cbv zeta in *. rewrite Hrun. simpl. set (w1 := with_trace _ _).
  destruct (restoreAllMessages_run w1 Hret) as (t' & ->). simpl.
  set (settings := extension_settings w). set (r := replacer w).
  split; [|split].
  - rewrite <-!list_fmap_compose. apply list_fmap_ext. intros i x Hx. simpl.
    apply has_backup_processed; [done|].
    apply Hnone. by eapply list_elem_of_lookup_2.
  - rewrite (Hn Hret). f_equal. rewrite count_of_fmap.
    apply count_of_ext. intros m Hm. simpl.
    by apply has_backup_processed; [|apply Hnone].
  - intros j. unfold backup_of. simpl. rewrite !list_lookup_fmap.
    destruct (chat w !! j) as [m|]; [|done]. simpl.
    apply has_backup_restored.
Qed.

End WithLib.
End BatchProps.

(** ** Data loading and start-up *)

Module StartupProps.
Import Extension Batch Startup ExtensionProps.
Local Open Scope nat_scope.

Section WithLib.
Context `{Lib : KaomojiReplacerLib}.

Section WithHost.
Context (host : Host).

(** *** loadKaomojiData and initCoreModules on any state and host *)

Lemma load_from_frame url not_ok w :
  let w' := fst (load_from host url not_ok w) in
  chat w' = chat w ∧ extension_settings w' = extension_settings w
  ∧ (is_Some (replacer w) → is_Some (replacer w')).
Proof.
  unfold load_from, fetch, response_text, manager_loadFromJSON,
    replacer_loadKaomojis, bind, gets, throw. simpl.
  destruct (fetch_result host url) as [response|e]; [|done].
  destruct (ok response); [|done]. simpl.
  destruct (body response) as [jsonText|e]; [|done].
  destruct (loadFromJSON jsonText (manager w)) as [m [[]|e]]; [|done]. simpl.
  destruct (replacer w) as [r|]; [|done].
  destruct (loadKaomojis (getAllKaomojis m) r) as [r' [[]|e]]; simpl; eauto.
Qed.

Lemma load_from_completion url not_ok w :
  snd (load_from host url not_ok w) = Returned tt
  ∨ ∃ e, snd (load_from host url not_ok w) = Thrown e.
Proof.
  destruct (load_from host url not_ok w) as [w' [[]|e]]; simpl; eauto.
Qed.

Lemma loadKaomojiData_shape w :
  let w0 := with_manager new_KaomojiDataManager w in
  let user := load_from host user_data_url user_not_ok w0 in
  ∃ w' c,
    loadKaomojiData host w = (w', c)
    ∧ (c = Returned tt ∨ c = Thrown (Error "No kaomoji data available"))
    ∧ chat w' = chat w ∧ extension_settings w' = extension_settings w
    ∧ (is_Some (replacer w) → is_Some (replacer w'))
    ∧ (snd user = Returned tt → trace w' = trace w ++ [Fetch user_data_url])
    ∧ (∀ e, snd user = Thrown e →
         trace w' = trace w ++ [Fetch user_data_url; Fetch template_data_url]).
Proof.
  intros w0 user. rewrite loadKaomojiData_run. fold w0. fold user.
  pose proof (load_from_frame user_data_url user_not_ok w0) as (Hc1 & Hs1 & Hr1).
  pose proof (load_from_trace host user_data_url user_not_ok w0) as Ht1.
  fold user in Hc1, Hs1, Hr1, Ht1.
  destruct user as [w1 [[]|e1]]; simpl in *.
  - exists w1, (Returned tt). split; [done|]. split; [by left|].
    do 3 (split; [done|]). split; [done|]. intros e He. done.
  - pose proof (load_from_frame template_data_url template_not_ok w1)
      as (Hc2 & Hs2 & Hr2).
    pose proof (load_from_trace host template_data_url template_not_ok w1) as Ht2.
    destruct (load_from host template_data_url template_not_ok w1)
      as [w2 [[]|e2]]; simpl in *.
    + exists w2, (Returned tt). split; [done|]. split; [by left|].
      split; [congruence|]. split; [congruence|]. split; [auto|].
      split; [done|]. intros e _. by rewrite Ht2, Ht1, <-app_assoc.
    + exists w2, (Thrown (Error "No kaomoji data available")).
      split; [done|]. split; [by right|].
      split; [congruence|]. split; [congruence|]. split; [auto|].
      split; [done|]. intros e _. by rewrite Ht2, Ht1, <-app_assoc.
Qed.

Lemma initCoreModules_unfold w :
  initCoreModules host w
  = loadKaomojiData host
      (with_replacer
         (Some (setConfig (replaceStrategy (extension_settings w))
                  new_KaomojiReplacer)) w).
Proof. done. Qed.

Lemma initCoreModules_shape w :
  ∃ w' c,
    initCoreModules host w = (w', c)
    ∧ (c = Returned tt ∨ c = Thrown (Error "No kaomoji data available"))
    ∧ chat w' = chat w ∧ extension_settings w' = extension_settings w
    ∧ is_Some (replacer w')
    ∧ ∃ t, trace w' = trace w ++ Fetch user_data_url :: t.
Proof.
  rewrite initCoreModules_unfold.
  destruct (loadKaomojiData_shape
              (with_replacer
                 (Some (setConfig (replaceStrategy (extension_settings w))
                          new_KaomojiReplacer)) w))
    as (w' & c & -> & Hc & Hchat & Hset & Hr & Ht1 & Ht2).
  exists w', c. split; [done|]. split; [done|]. split; [done|]. split; [done|].
  split; [apply Hr; by eexists|].
  destruct (load_from_completion user_data_url user_not_ok
              (with_manager new_KaomojiDataManager
                 (with_replacer
                    (Some (setConfig (replaceStrategy (extension_settings w))
                             new_KaomojiReplacer)) w))) as [Hu|[e Hu]].
  - exists []. by apply Ht1.
  - exists [Fetch template_data_url]. by apply (Ht2 e).
Qed.

(** X12: nothing but the error 'No kaomoji data available' leaves
    [loadKaomojiData]: every failure of either attempt, a rejected fetch,
    a response that is not ok, a text that cannot be read or parsed, a
    replacer that is null or refuses the entries, is swallowed.  The user
    dataset is always fetched first; the template is fetched exactly when
    the user attempt threw.  The chat and the settings are not touched. *)
Theorem loadKaomojiData_outcomes w :
  let w0 := with_manager new_KaomojiDataManager w in
  let user := load_from host user_data_url user_not_ok w0 in
  let run := loadKaomojiData host w in
  (snd run = Returned tt ∨ snd run = Thrown (Error "No kaomoji data available"))
  ∧ chat (fst run) = chat w
  ∧ extension_settings (fst run) = extension_settings w
  ∧ (snd user = Returned tt →
       snd run = Returned tt
       ∧ trace (fst run) = trace w ++ [Fetch user_data_url])
  ∧ (∀ e, snd user = Thrown e →
       trace (fst run)
       = trace w ++ [Fetch user_data_url; Fetch template_data_url]).
Proof.
  cbv zeta.
  destruct (loadKaomojiData_shape w)
    as (w' & c & Hrun & Hc & Hchat & Hset & _ & Ht1 & Ht2).
  cbv zeta in *. rewrite Hrun. simpl.
  do 3 (split; [done|]). split; [|done].
  intros Hu. split; [|by apply Ht1].
  rewrite loadKaomojiData_run in Hrun. cbv zeta in Hrun.
  destruct (load_from host user_data_url user_not_ok
              (with_manager new_KaomojiDataManager w)) as [w1 [[]|e1]];
    simpl in *; congruence.
Qed.

(** X13: [initCoreModules] always leaves a replacer behind, also when it
    throws, so that a later [processMessage] finds one; it throws nothing
    but 'No kaomoji data available', it fetches the user dataset first,
    and it touches neither the chat nor the settings. *)
Theorem initCoreModules_outcomes w :
  let run := initCoreModules host w in
  is_Some (replacer (fst run))
  ∧ (snd run = Returned tt ∨ snd run = Thrown (Error "No kaomoji data available"))
  ∧ chat (fst run) = chat w
  ∧ extension_settings (fst run) = extension_settings w
  ∧ ∃ t, trace (fst run) = trace w ++ Fetch user_data_url :: t.
Proof.
  cbv zeta.
  destruct (initCoreModules_shape w) as (w' & c & -> & Hc & Hchat & Hset & Hr & Ht).
  done.
Qed.

End WithHost.

Context (ph : PageHost).

Lemma initSettings_fields p :
  let p1 := initSettings p in
  settings_defined p1 = true
  ∧ isInitialized p1 = isInitialized p ∧ listeners p1 = listeners p
  ∧ window_KaomojiReplacer p1 = window_KaomojiReplacer p
  ∧ chat (world p1) = chat (world p) ∧ replacer (world p1) = replacer (world p)
  ∧ trace (world p1) = trace (world p)
  ∧ (settings_defined p = true → p1 = p)
  ∧ (settings_defined p = false →
       extension_settings (world p1) = defaultSettings
       ∧ page_trace p1 = page_trace p ++ [SaveSettingsDebounced]).
Proof.
  unfold initSettings. destruct (settings_defined p) eqn:Hd; simpl;
    repeat split; done.
Qed.

Lemma loadCoreLibrary_shape p :
  ∃ p2 c,
    loadCoreLibrary ph p = (p2, c)
    ∧ world p2 = world p ∧ settings_defined p2 = settings_defined p
    ∧ isInitialized p2 = isInitialized p ∧ listeners p2 = listeners p
    ∧ page_trace p2 = page_trace p ++ [LoadFileToDocument bundle_url "js"]
    ∧ (c = Returned tt ∧ window_KaomojiReplacer p2 = true
       ∨ ∃ e, c = Thrown e).
Proof.
  unfold loadCoreLibrary.
  destruct (load_file ph bundle_url) as [mounted|e]; simpl.
  - destruct (window_KaomojiReplacer p || mounted) eqn:Hw; simpl;
      eexists _, _; (split; [reflexivity|]); simpl; eauto 10.
  - eexists _, _. split; [reflexivity|]. simpl. eauto 10.
Qed.

(** The ways the entry point goes. *)
Lemma main_cases p :
  let p1 := initSettings p in
  let p' := main ph p in
  settings_defined p' = true
  ∧ ((isInitialized p' = true
      ∧ listeners p' = listeners p ++ [MESSAGE_RECEIVED; MESSAGE_SENT]
      ∧ window_KaomojiReplacer p' = true
      ∧ is_Some (replacer (world p'))
      ∧ snd (loadCoreLibrary ph p1) = Returned tt
      ∧ snd (initCoreModules (page_host ph) (world p1)) = Returned tt)
     ∨ (isInitialized p' = isInitialized p ∧ listeners p' = listeners p
        ∧ ((∃ e, snd (loadCoreLibrary ph p1) = Thrown e)
             ∧ world p' = world p1
           ∨ snd (loadCoreLibrary ph p1) = Returned tt
             ∧ snd (initCoreModules (page_host ph) (world p1))
               = Thrown (Error "No kaomoji data available")))).
Proof.
  cbv zeta. unfold main.
  destruct (initSettings_fields p) as (Hd & Hi & Hl & _).
  destruct (loadCoreLibrary_shape (initSettings p))
    as (p2 & c & Hload & Hw2 & Hd2 & Hi2 & Hl2 & _ & Hc).
  rewrite Hload. simpl.
  destruct Hc as [[-> Hwin]|[e ->]].
  - unfold on_world. rewrite Hw2.
    destruct (initCoreModules_shape (page_host ph) (world (initSettings p)))
      as (w' & c' & Hinit & Hc' & _ & _ & Hr & _).
    rewrite Hinit. simpl. destruct Hc' as [-> | ->]; simpl.
    + split; [congruence|]. left. rewrite Hl2, Hl. done.
    + split; [congruence|]. right.
      split; [congruence|]. split; [congruence|]. by right.
  - split; [congruence|]. right.
    split; [congruence|]. split; [congruence|]. left. split; [by exists e|done].
Qed.


(** X14: the entry point sets [isInitialized] and registers the two
    handlers only when the bundle was loaded and [initCoreModules]
    returned; then the global is mounted and the replacer exists.  In
    every other case the flag and the registered handlers are as before:
    when the bundle fails to load the extension state is that after
    [initSettings], no dataset having been fetched; otherwise
    [initCoreModules] threw 'No kaomoji data available'.  In all cases
    the settings exist afterwards. *)
Theorem main_outcomes p :
  let p1 := initSettings p in
  let p' := main ph p in
  settings_defined p' = true
  ∧ ((isInitialized p' = true
      ∧ listeners p' = listeners p ++ [MESSAGE_RECEIVED; MESSAGE_SENT]
      ∧ window_KaomojiReplacer p' = true
      ∧ is_Some (replacer (world p'))
      ∧ snd (loadCoreLibrary ph p1) = Returned tt
      ∧ snd (initCoreModules (page_host ph) (world p1)) = Returned tt)
     ∨ (isInitialized p' = isInitialized p ∧ listeners p' = listeners p
        ∧ ((∃ e, snd (loadCoreLibrary ph p1) = Thrown e)
             ∧ world p' = world p1
           ∨ snd (loadCoreLibrary ph p1) = Returned tt
             ∧ snd (initCoreModules (page_host ph) (world p1))
               = Thrown (Error "No kaomoji data available")))).
Proof. apply main_cases. Qed.

(** X15: the entry point never overwrites settings that exist: they are
    the same afterwards and nothing is saved; settings that are missing
    become the default settings, saved once.  The chat is not touched. *)
Theorem main_settings p :
  let p' := main ph p in
  chat (world p') = chat (world p)
  ∧ (settings_defined p = true →
       extension_settings (world p') = extension_settings (world p)
       ∧ SaveSettingsDebounced ∉ drop (length (page_trace p)) (page_trace p'))
  ∧ (settings_defined p = false →
       extension_settings (world p') = defaultSettings
       ∧ page_trace p'
         = page_trace p ++ [SaveSettingsDebounced;
                            LoadFileToDocument bundle_url "js"]).
Proof.
  cbv zeta.
  assert (chat (world (main ph p)) = chat (world (initSettings p))
          ∧ extension_settings (world (main ph p))
            = extension_settings (world (initSettings p))
          ∧ page_trace (main ph p)
            = page_trace (initSettings p) ++ [LoadFileToDocument bundle_url "js"])
    as (Hchat & Hset & Htrace).
  { unfold main.
    destruct (loadCoreLibrary_shape (initSettings p))
      as (p2 & c & Hload & Hw2 & _ & _ & _ & Ht2 & Hc).
    rewrite Hload. simpl.
    destruct Hc as [[-> Hwin]|[e ->]]; [|by rewrite Hw2].
    unfold on_world. rewrite Hw2.
    destruct (initCoreModules_shape (page_host ph) (world (initSettings p)))
      as (w' & c' & Hinit & Hc' & Hchat & Hset & _).
    rewrite Hinit. simpl. by destruct Hc' as [-> | ->]. }
  destruct (initSettings_fields p)
    as (_ & _ & _ & _ & Hchat1 & _ & _ & Hsame & Hnew).
  split; [congruence|]. split.
  - intros Hd. rewrite Hset, Htrace, (Hsame Hd). split; [done|].
    rewrite drop_app_length. by intros [=]%list_elem_of_singleton.
  - intros Hd. destruct (Hnew Hd) as [Hdef Hsave].
    rewrite Hset, Htrace, Hsave, <-app_assoc. done.
Qed.

Lemma on_world_world {A} (m : M A) p :
  world (fst (on_world m p)) = fst (m (world p)).
Proof. unfold on_world. by destruct (m (world p)). Qed.

Lemma dispatch_unfold event messageId p :
  dispatch ph event messageId p
  = foldl (λ p registered,
             if bool_decide (registered = event) && settings_defined p
             then fst (on_world (on_event (page_host ph) event messageId) p)
             else p)
          p (listeners p).
Proof. done. Qed.

(** X16: after a start-up from a fresh page that did not end with
    [isInitialized] set, no event of the host reaches the extension: no
    handler is registered, and the page is the same after any event. *)
Theorem dispatch_after_failed_start p event messageId :
  listeners p = [] → isInitialized p = false →
  isInitialized (main ph p) = false →
  dispatch ph event messageId (main ph p) = main ph p.
Proof.
  intros Hl Hi Hfail. rewrite dispatch_unfold.
  destruct (main_cases p) as (_ & [(Ht & _)|(_ & -> & _)]); [congruence|].
  by rewrite Hl.
Qed.

(** X17: after a start-up from a fresh page that ended with
    [isInitialized] set, an event of the host runs the handler of its
    type once: MESSAGE_RECEIVED and MESSAGE_SENT run theirs, and
    MESSAGE_EDITED, which [modifyMessageContent] emits, has none, so the
    extension does not react to its own edits. *)
Theorem dispatch_after_start p event messageId :
  listeners p = [] → isInitialized p = false →
  isInitialized (main ph p) = true →
  world (dispatch ph event messageId (main ph p))
  = fst (on_event (page_host ph) event messageId (world (main ph p)))
  ∧ dispatch ph MESSAGE_EDITED messageId (main ph p) = main ph p.
Proof.
  intros Hl Hi Hok. rewrite !dispatch_unfold.
  destruct (main_cases p) as (Hd & [(_ & -> & _)|(Hsame & _)]); [|congruence].
  rewrite Hl. simpl. rewrite !Hd. split; [|done].
  destruct event; simpl; rewrite ?Hd; simpl; by rewrite ?on_world_world.
Qed.

End WithLib.
End StartupProps.

(** ** The batch and start-up theorems at work on the sample instances *)

Module BatchWitnesses.
Import Core Extension Batch Startup Samples StartupSamples.
Import ExtensionProps BatchProps StartupProps Witnesses.
#[local] Existing Instance sample_matching.

Lemma system_messages_untouched_witness :
  (∀ steps, chat (session quiet_host steps system_world) !! 4
            = Some (system_message "[kaomoji:happy]"))
  ∧ chat (fst (processAllMessages quiet_host system_world)) !! 4
    = Some (system_message "[kaomoji:happy]").
Proof.
  apply (system_messages_untouched quiet_host system_world 4); reflexivity.
Defined.

Lemma processMessage_display_idempotent_witness :
  chat (fst (processMessage quiet_host 1
               (fst (processMessage quiet_host 1 sample_world))))
  = chat (fst (processMessage quiet_host 1 sample_world)).
Proof.
  apply (processMessage_display_idempotent quiet_host sample_world 1).
  reflexivity.
Defined.

Lemma display_mode_keeps_mes_witness :
  mes <$> chat (fst (processAllMessages quiet_host sample_world))
  = mes <$> sample_chat.
Proof.
  destruct (display_mode_keeps_mes quiet_host sample_world) as (_ & H & _);
    [reflexivity|exact H].
Defined.

Lemma restoreAllMessages_spec_witness :
  snd (restoreAllMessages quiet_host rewritten_world) = Returned 1.
Proof.
  destruct (restoreAllMessages_spec quiet_host rewritten_world
              quiet_host_returns) as (H & _).
  rewrite H. vm_compute. reflexivity.
Defined.

Lemma restoreAllMessages_aborts_witness :
  snd (restoreAllMessages failing_save_host rewritten_world)
  = Thrown (Error "save failed").
Proof.
  destruct (restoreAllMessages_aborts failing_save_host rewritten_world 1
              (fst (restoreMessage failing_save_host 1 rewritten_world))
              (Error "save failed")) as [H _].
  - intros j Hj. assert (j = 0) as -> by lia. vm_compute. reflexivity.
  - apply run_eta. vm_compute. reflexivity.
  - rewrite H. reflexivity.
Defined.

Lemma restoreMessage_after_mode_switch_witness :
  ∃ m2,
    chat (fst (restoreMessage quiet_host 1
                 (with_settings defaultSettings rewritten_world))) !! 1
    = Some m2
    ∧ mes m2 = "hi (^_^) there"
    ∧ extra_get "kaomoji_original" m2 = None.
Proof.
  destruct (restoreMessage_after_mode_switch quiet_host
              (with_settings content_settings sample_world) 1
              (ai_message "hi [kaomoji:happy] there") rewritten_world
              defaultSettings)
    as (r & m2 & Hr & Hm2 & Hko & Hcontent & _).
  - reflexivity.
  - reflexivity.
  - discriminate.
  - unfold rewritten_world. apply run_eta. vm_compute. reflexivity.
  - exists m2. split; [done|]. split; [|done].
    rewrite Hcontent; [|discriminate|reflexivity].
    simpl in Hr. injection Hr as <-. vm_compute. reflexivity.
Defined.

Lemma restoreAll_after_processAll_witness :
  mes <$> chat (fst (restoreAllMessages quiet_host
                       (fst (processAllMessages quiet_host
                               (with_settings content_settings sample_world)))))
  = mes <$> sample_chat.
Proof.
  destruct (restoreAll_after_processAll quiet_host
              (with_settings content_settings sample_world)
              quiet_host_returns core_lib_nothing_replaced_in_empty_text)
    as (H & _).
  - intros m Hm. simpl in Hm. unfold sample_chat in Hm.
    repeat (apply elem_of_cons in Hm as [->|Hm]);
      [reflexivity..|by apply elem_of_nil in Hm].
  - exact H.
Defined.

Lemma dispatch_after_failed_start_witness :
  dispatch broken_bundle_host MESSAGE_RECEIVED 1
    (main broken_bundle_host fresh_page)
  = main broken_bundle_host fresh_page.
Proof.
  apply (dispatch_after_failed_start broken_bundle_host fresh_page);
    [reflexivity|reflexivity|vm_compute; reflexivity].
Defined.

Lemma dispatch_after_start_witness :
  world (dispatch good_page_host MESSAGE_RECEIVED 1
           (main good_page_host fresh_page))
  = fst (on_event quiet_host MESSAGE_RECEIVED 1
           (world (main good_page_host fresh_page)))
  ∧ dispatch good_page_host MESSAGE_EDITED 1 (main good_page_host fresh_page)
    = main good_page_host fresh_page.
Proof.
  apply (dispatch_after_start good_page_host fresh_page MESSAGE_RECEIVED 1);
    [reflexivity|reflexivity|vm_compute; reflexivity].
Defined.

End BatchWitnesses.
